(** * Order status machine and order totals of the order service

    A shallow embedding of [order.model.ts] (the status enumeration, the
    transition table and the pricing constants) and of the methods of
    [OrderService] in [order.service.ts] that validate input before a
    request leaves the client: [createOrder], [updateOrderStatus],
    [updateOrder], [cancelOrder] and [calculateOrderTotals]; then of the
    other methods of the service and of the order list component in
    [order-list.component.ts] that calls it.

    Conventions of the embedding.
    - A JavaScript [number] is an IEEE 754 binary64 value: [float] of
      [PrimFloat], with the same rounding on every operation.
    - A method that returns [throwError(() => new Error(m))] is modelled by
      the outcome [Throw m]; a method that hands a request to [HttpClient] by
      [Http r], where [r] records verb, URL and body.
    - The four signals of the service are the fields of [ServiceState];
      a method maps the state before the call to the state after it and
      the outcome.  What the [tap] callback does when the response arrives
      is a separate function, since the response is chosen by the server.
      The [catchError] handler of a failed request is [handleError].
    - A string is its sequence of code units, so [String.length] is the
      [length] property. *)

From Stdlib Require Import ZArith List String Bool Lia.
From Stdlib Require Import Permutation Sorted.
From Stdlib Require Import QArith Qround.
From Stdlib Require Import PrimFloat FloatOps SpecFloat FloatAxioms Uint63.
Import ListNotations.

Set Warnings "-inexact-float".

Close Scope Q_scope.
Local Open Scope string_scope.

(** ** order.model.ts *)

Inductive OrderStatus : Set :=
  | draft | pending | confirmed | processing
  | shipped | delivered | cancelled | refunded.

(** The statuses are string literals in the source; this is the string a
    template literal interpolates. *)
Definition status_name (s : OrderStatus) : string :=
  match s with
  | draft => "draft" | pending => "pending" | confirmed => "confirmed"
  | processing => "processing" | shipped => "shipped"
  | delivered => "delivered" | cancelled => "cancelled"
  | refunded => "refunded"
  end.

(** [a === b] on two statuses. *)
Definition status_eqb (a b : OrderStatus) : bool :=
  match a, b with
  | draft, draft | pending, pending | confirmed, confirmed
  | processing, processing | shipped, shipped | delivered, delivered
  | cancelled, cancelled | refunded, refunded => true
  | _, _ => false
  end.

Definition all_statuses : list OrderStatus :=
  [draft; pending; confirmed; processing; shipped; delivered; cancelled;
   refunded].

Definition ORDER_STATUS_TRANSITIONS (s : OrderStatus) : list OrderStatus :=
  match s with
  | draft => [pending; cancelled]
  | pending => [confirmed; cancelled]
  | confirmed => [processing; cancelled]
  | processing => [shipped; cancelled]
  | shipped => [delivered]
  | delivered => [refunded]
  | cancelled => []
  | refunded => []
  end.

Definition TAX_RATE : float := 0.08%float.
Definition FREE_SHIPPING_THRESHOLD : float := 100%float.
Definition STANDARD_SHIPPING_COST : float := 9.99%float.

Module Address.
Record t : Set := mk
  { street : string; city : string; state : string;
    postalCode : string; country : string }.
End Address.

Module OrderItem.
Record t : Set := mk
  { productId : string;
    productName : option string;
    quantity : float;
    unitPrice : float;
    discount : float;
    total : option float }.
End OrderItem.

Module Order.
(** [createdAt] and [updatedAt] are [Date]s, kept as milliseconds since
    the epoch. *)
Record t : Set := mk
  { id : string;
    userId : string;
    items : list OrderItem.t;
    subtotal : float;
    tax : float;
    shipping : float;
    total : float;
    status : OrderStatus;
    shippingAddress : Address.t;
    billingAddress : option Address.t;
    notes : option string;
    trackingNumber : option string;
    createdAt : Z;
    updatedAt : Z }.
End Order.

Module CreateOrderDTO.
Record t : Set := mk
  { userId : string;
    items : list OrderItem.t;
    shippingAddress : Address.t;
    billingAddress : option Address.t;
    notes : option string }.
End CreateOrderDTO.

Module UpdateOrderDTO.
Record t : Set := mk
  { items : option (list OrderItem.t);
    shippingAddress : option Address.t;
    billingAddress : option Address.t;
    notes : option string }.
End UpdateOrderDTO.

(** The object [calculateOrderTotals] returns. *)
Module OrderTotals.
Record t : Set := mk
  { subtotal : float; tax : float; shipping : float; total : float }.
End OrderTotals.

(** ** JavaScript primitives the service uses *)

(** [Math.round(x)]: the integral number closest to [x], the one closer to
    plus infinity when two are equally close; NaN, the infinities and the
    zeros are returned as they are, and a negative [x] that rounds to zero
    gives [-0].  A finite [x] is [(-1)^s * m * 2^e]: with [e >= 0] it is
    integral already, otherwise [m] is split at bit [-e] and the fraction
    [r / 2^(-e)] is compared with one half.  The integer found is below
    [2^53], so the conversion back is exact. *)
Definition Math_round (x : float) : float :=
  match Prim2SF x with
  | S754_finite s m e =>
      if (0 <=? e)%Z then x
      else
        let d := (2 ^ (- e))%Z in
        let q := (Z.pos m / d)%Z in
        let r := (Z.pos m mod d)%Z in
        let n :=
          if s then (if (d <? 2 * r)%Z then q + 1 else q)%Z
          else (if (d <=? 2 * r)%Z then q + 1 else q)%Z in
        let a := PrimFloat.of_uint63 (Uint63.of_Z n) in
        if s then (- a)%float else a
  | _ => x
  end.

(** [xs.includes(x)] on an array of statuses. *)
Definition includes (xs : list OrderStatus) (x : OrderStatus) : bool :=
  existsb (fun y => status_eqb y x) xs.

(** A string in a boolean position: the empty string is the only falsy
    one. *)
Definition truthy (s : string) : bool :=
  match s with EmptyString => false | _ => true end.

(** ** order.service.ts *)

Definition apiUrl : string := "/api/orders".

Record ServiceState : Set := mkState
  { ordersSignal : list Order.t;
    currentOrderSignal : option Order.t;
    loadingSignal : bool;
    errorSignal : option string }.

(** The body [createOrder] posts: [{...dto, ...totals}]. *)
Record OrderData : Set := mkOrderData
  { dto_part : CreateOrderDTO.t; totals_part : OrderTotals.t }.

Inductive HttpRequest : Set :=
  | POST_order (url : string) (body : OrderData)
  | PATCH_status (url : string) (status : OrderStatus)
  | PATCH_order (url : string) (body : UpdateOrderDTO.t).

Inductive Outcome : Set :=
  | Throw (message : string)
  | Http (request : HttpRequest).

(** [this.ordersSignal().find(o => o.id === orderId)] *)
Definition findOrder (st : ServiceState) (orderId : string)
  : option Order.t :=
  find (fun o => String.eqb (Order.id o) orderId) (ordersSignal st).

(** *** calculateOrderTotals *)

Definition calculateOrderTotals (items : list OrderItem.t) : OrderTotals.t :=
  let subtotal :=
    fold_left
      (fun sum item =>
         let itemTotal :=
           (OrderItem.unitPrice item * OrderItem.quantity item
            * (1 - OrderItem.discount item / 100))%float in
         (sum + itemTotal)%float)
      items 0%float in
  let tax := (Math_round (subtotal * TAX_RATE * 100) / 100)%float in
  let shipping :=
    if (FREE_SHIPPING_THRESHOLD <=? subtotal)%float then 0%float
    else STANDARD_SHIPPING_COST in
  let total :=
    (Math_round ((subtotal + tax + shipping) * 100) / 100)%float in
  OrderTotals.mk subtotal tax shipping total.

(** *** isValidAddress

    [address] has type [Address], an object, so [!address] is false; each
    field is tested for truthiness and then for its minimum length. *)
Definition isValidAddress (address : Address.t) : bool :=
  truthy (Address.street address)
  && (5 <=? String.length (Address.street address))%nat
  && truthy (Address.city address)
  && (2 <=? String.length (Address.city address))%nat
  && truthy (Address.state address)
  && (2 <=? String.length (Address.state address))%nat
  && truthy (Address.postalCode address)
  && (5 <=? String.length (Address.postalCode address))%nat
  && truthy (Address.country address)
  && (2 <=? String.length (Address.country address))%nat.

(** *** createOrder *)

(** The [for (const item of dto.items)] loop: the message of the first
    check that fails, in iteration order, or [None] when the loop runs to
    its end. *)
Fixpoint checkItems (items : list OrderItem.t) : option string :=
  match items with
  | [] => None
  | item :: rest =>
      if (OrderItem.quantity item <=? 0)%float
      then Some "Item quantity must be positive"%string
      else if (OrderItem.unitPrice item <? 0)%float
      then Some "Item price cannot be negative"%string
      else checkItems rest
  end.

Definition createOrder (st : ServiceState) (dto : CreateOrderDTO.t)
  : ServiceState * Outcome :=
  match CreateOrderDTO.items dto with
  | [] => (st, Throw "Order must contain at least one item")
  | _ :: _ =>
      match checkItems (CreateOrderDTO.items dto) with
      | Some message => (st, Throw message)
      | None =>
          if negb (isValidAddress (CreateOrderDTO.shippingAddress dto))
          then (st, Throw "Invalid shipping address")
          else
            let st' :=
              mkState (ordersSignal st) (currentOrderSignal st) true None in
            let orderData :=
              mkOrderData dto
                (calculateOrderTotals (CreateOrderDTO.items dto)) in
            (st', Http (POST_order apiUrl orderData))
      end
  end.

(** The [tap] callback of [createOrder], run on the order the server
    answers with. *)
Definition createOrder_tap (st : ServiceState) (order : Order.t)
  : ServiceState :=
  mkState (ordersSignal st ++ [order])%list (Some order) false
    (errorSignal st).

(** *** updateOrderStatus *)

Definition transitionMessage (current target : OrderStatus) : string :=
  ("Cannot transition from " ++ status_name current
   ++ " to " ++ status_name target)%string.

Definition updateOrderStatus (st : ServiceState) (orderId : string)
  (newStatus : OrderStatus) : ServiceState * Outcome :=
  let request :=
    Http (PATCH_status (apiUrl ++ "/" ++ orderId ++ "/status") newStatus) in
  match findOrder st orderId with
  | Some currentOrder =>
      let allowedTransitions :=
        ORDER_STATUS_TRANSITIONS (Order.status currentOrder) in
      if negb (includes allowedTransitions newStatus)
      then (st, Throw (transitionMessage (Order.status currentOrder)
                         newStatus))
      else (st, request)
  | None => (st, request)
  end.

(** The [tap] callback shared by [updateOrderStatus] and [updateOrder]:
    every locally held order with this id is replaced by the answer, and
    so is the current order when it has this id. *)
Definition replaceOrder_tap (st : ServiceState) (orderId : string)
  (order : Order.t) : ServiceState :=
  mkState
    (map (fun o => if String.eqb (Order.id o) orderId then order else o)
       (ordersSignal st))
    (match currentOrderSignal st with
     | Some c =>
         if String.eqb (Order.id c) orderId then Some order else Some c
     | None => None
     end)
    (loadingSignal st) (errorSignal st).

(** *** updateOrder *)

Definition updateOrder (st : ServiceState) (orderId : string)
  (dto : UpdateOrderDTO.t) : ServiceState * Outcome :=
  match findOrder st orderId with
  | Some currentOrder =>
      if negb (status_eqb (Order.status currentOrder) draft)
      then (st, Throw "Can only update orders in draft status")
      else (st, Http (PATCH_order (apiUrl ++ "/" ++ orderId) dto))
  | None => (st, Http (PATCH_order (apiUrl ++ "/" ++ orderId) dto))
  end.

(** *** cancelOrder *)

Definition cancelOrder (st : ServiceState) (orderId : string)
  : ServiceState * Outcome :=
  match findOrder st orderId with
  | Some order =>
      if status_eqb (Order.status order) shipped
         || status_eqb (Order.status order) delivered
      then (st, Throw ("Cannot cancel order in "
                       ++ status_name (Order.status order) ++ " status"))
      else updateOrderStatus st orderId cancelled
  | None => updateOrderStatus st orderId cancelled
  end.

(** ** The contract of the status machine

    The component contract names the validation step of
    [updateOrderStatus] as two functions of the current and the requested
    status: the membership test, and its use as a guard that either lets
    the requested status through or raises the transition error. *)

Definition canTransition (current target : OrderStatus) : bool :=
  includes (ORDER_STATUS_TRANSITIONS current) target.

Inductive TransitionError : Set :=
  | InvalidTransition (message : string).

Definition transition (current target : OrderStatus)
  : TransitionError + OrderStatus :=
  if negb (includes (ORDER_STATUS_TRANSITIONS current) target)
  then inl (InvalidTransition (transitionMessage current target))
  else inr target.

(** Whether two transition errors with the same text always name the same
    pair of statuses, checked over all pairs of pairs. *)
Definition messages_distinct : bool :=
  forallb (fun c => forallb (fun t => forallb (fun c' => forallb (fun t' =>
    implb (String.eqb (transitionMessage c t) (transitionMessage c' t'))
          (status_eqb c c' && status_eqb t t'))
    all_statuses) all_statuses) all_statuses) all_statuses.

(** The transition table as the data model lists it, one constructor per
    entry of an allowed-next set. *)
Inductive allowed_next : OrderStatus -> OrderStatus -> Prop :=
  | next_draft_pending : allowed_next draft pending
  | next_draft_cancelled : allowed_next draft cancelled
  | next_pending_confirmed : allowed_next pending confirmed
  | next_pending_cancelled : allowed_next pending cancelled
  | next_confirmed_processing : allowed_next confirmed processing
  | next_confirmed_cancelled : allowed_next confirmed cancelled
  | next_processing_shipped : allowed_next processing shipped
  | next_processing_cancelled : allowed_next processing cancelled
  | next_shipped_delivered : allowed_next shipped delivered
  | next_delivered_refunded : allowed_next delivered refunded.

(** A sequence of statuses visited from [s], each reached from the one
    before it by an allowed transition. *)
Fixpoint valid_path (s : OrderStatus) (path : list OrderStatus) : Prop :=
  match path with
  | [] => True
  | t :: rest => canTransition s t = true /\ valid_path t rest
  end.

(** ** The contract of the totals computation

    What the contract says of the totals, in terms that do not mention
    [Math_round].  Numbers are binary64 as in the source and the sum runs
    over the items in order from 0.  Rounding is stated on exact values:
    the finite number [(-1)^s * m * 2^e] is the rational
    [signedMantissa s m * 2^e]. *)

Definition lineTotal (item : OrderItem.t) : float :=
  (OrderItem.unitPrice item * OrderItem.quantity item
   * (1 - OrderItem.discount item / 100))%float.

Definition sum (xs : list float) : float :=
  fold_left (fun acc x => (acc + x)%float) xs 0%float.

Definition signedMantissa (s : bool) (m : positive) : Z :=
  if s then Z.neg m else Z.pos m.

(** The exact value of a binary64 number; NaN and the infinities have
    none. *)
Definition exactValue (x : float) : option Q :=
  match Prim2SF x with
  | S754_finite s m e =>
      Some (if (0 <=? e)%Z then inject_Z (signedMantissa s m * 2 ^ e)
            else Qmake (signedMantissa s m) (Z.to_pos (2 ^ (- e))))
  | S754_zero _ => Some 0%Q
  | _ => None
  end.

(** The binary64 number whose value is the integer [n], for [n] of at
    most 53 bits; [s] is its sign bit, which tells [-0] from [0]. *)
Definition ofInteger (s : bool) (n : Z) : float :=
  if s then (- of_uint63 (Uint63.of_Z (- n)))%float
  else of_uint63 (Uint63.of_Z n).

(** [r] is [y] rounded to the nearest integer, to the larger one when two
    are equally near.  A finite [y] with [e >= 0] is an integer and its
    own rounding; otherwise [r] is the integer [n] with
    [n - 1/2 <= m * 2^e < n + 1/2], written here multiplied by
    [2 * 2^(-e)]; NaN, the infinities and the zeros are left as they
    are. *)
Definition nearestIntegerTiesUp (y r : float) : Prop :=
  match Prim2SF y with
  | S754_finite s m e =>
      if (0 <=? e)%Z then r = y
      else exists n : Z,
          ((2 * n - 1) * 2 ^ (- e) <= 2 * signedMantissa s m
           < (2 * n + 1) * 2 ^ (- e))%Z
          /\ r = ofInteger s n
  | _ => r = y
  end.

(** [x] rounded to two decimal places, in cents: the integer nearest to
    100 times the exact value of [x], the larger one on a tie. *)
Definition nearestCents (x : float) : option Z :=
  option_map (fun v => Qfloor (v * 100 + 1 / 2)%Q) (exactValue x).

(** The contract read on decimal numbers: an item is its unit price, its
    quantity and its discount as rationals, all arithmetic is exact, and
    rounding to two decimal places goes to the nearest cent, upwards on a
    tie. *)
Definition decimalRound2 (x : Q) : Q :=
  Qmake (Qfloor (x * 100 + 1 / 2)%Q) 100.

Definition decimalTotal (items : list (Q * Q * Q)) : Q :=
  let subtotal :=
    fold_left
      (fun acc '(unitPrice, quantity, discount) =>
         (acc + unitPrice * quantity * (1 - discount / 100))%Q)
      items 0%Q in
  let tax := decimalRound2 (subtotal * (8 / 100))%Q in
  let shipping := if Qle_bool 100 subtotal then 0%Q else (999 / 100)%Q in
  decimalRound2 (subtotal + tax + shipping)%Q.

(** The value [calculateOrderTotals] rounds for the total. *)
Definition beforeRounding (totals : OrderTotals.t) : float :=
  (OrderTotals.subtotal totals + OrderTotals.tax totals
   + OrderTotals.shipping totals)%float.

(** ** The inputs [createOrder] turns away, condition by condition *)

Definition meetsMinimumLengths (address : Address.t) : bool :=
  (5 <=? String.length (Address.street address))%nat
  && (2 <=? String.length (Address.city address))%nat
  && (2 <=? String.length (Address.state address))%nat
  && (5 <=? String.length (Address.postalCode address))%nat
  && (2 <=? String.length (Address.country address))%nat.

Definition rejected (dto : CreateOrderDTO.t) : bool :=
  match CreateOrderDTO.items dto with [] => true | _ :: _ => false end
  || existsb (fun item => (OrderItem.quantity item <=? 0)%float)
       (CreateOrderDTO.items dto)
  || existsb (fun item => (OrderItem.unitPrice item <? 0)%float)
       (CreateOrderDTO.items dto)
  || negb (meetsMinimumLengths (CreateOrderDTO.shippingAddress dto)).

(** ** Sample data: the fixtures of order.service.spec.ts *)

Definition validAddress : Address.t :=
  Address.mk "123 Main St" "Boston" "MA" "02101" "US".

Definition validItems : list OrderItem.t :=
  [ OrderItem.mk "prod-1" None 2%float 25%float 0%float None;
    OrderItem.mk "prod-2" None 1%float 50%float 10%float None ].

Definition validOrderDTO : CreateOrderDTO.t :=
  CreateOrderDTO.mk "user-123" validItems validAddress None None.

Definition existingOrder (orderId : string) (s : OrderStatus) : Order.t :=
  Order.mk orderId "user-123" validItems 95%float 7.6%float 9.99%float
    112.59%float s validAddress None None None 0%Z 0%Z.

Definition emptyState : ServiceState := mkState [] None false None.

Definition stateWith (orders : list Order.t) : ServiceState :=
  mkState orders None false None.

(** ** The shape of the transition table *)

(** How far a status is along the life of an order: every allowed
    transition goes to a status of higher rank. *)
Definition rank (s : OrderStatus) : nat :=
  match s with
  | draft => 0 | pending => 1 | confirmed => 2 | processing => 3
  | shipped => 4 | delivered => 5 | cancelled => 6 | refunded => 6
  end.

(** ** The other methods of order.service.ts *)

(** The requests of the methods that read orders or change their items. *)
Inductive OtherRequest : Set :=
  | GET (url : string)
  | POST_item (url : string) (body : OrderItem.t)
  | DELETE (url : string).

(** The computed signals [pendingOrders] and [completedOrders]. *)
Definition pendingOrders (st : ServiceState) : list Order.t :=
  filter (fun o => status_eqb (Order.status o) pending) (ordersSignal st).

Definition completedOrders (st : ServiceState) : list Order.t :=
  filter (fun o => status_eqb (Order.status o) delivered) (ordersSignal st).

Definition getOrder (st : ServiceState) (id : string)
  : ServiceState * OtherRequest :=
  (st, GET (apiUrl ++ "/" ++ id)).

Definition getOrder_tap (st : ServiceState) (order : Order.t)
  : ServiceState :=
  mkState (ordersSignal st) (Some order) (loadingSignal st) (errorSignal st).

Definition getUserOrders (st : ServiceState) (userId : string)
  : ServiceState * OtherRequest :=
  (mkState (ordersSignal st) (currentOrderSignal st) true (errorSignal st),
   GET (apiUrl ++ "/user/" ++ userId)).

Definition getUserOrders_tap (st : ServiceState) (orders : list Order.t)
  : ServiceState :=
  mkState orders (currentOrderSignal st) false (errorSignal st).

(** [addItemToOrder]: [inl] is the message of the error thrown, [inr] the
    request sent. *)
Definition addItemToOrder (st : ServiceState) (orderId : string)
  (item : OrderItem.t) : ServiceState * (string + OtherRequest) :=
  if (OrderItem.quantity item <=? 0)%float
  then (st, inl "Quantity must be positive")
  else (st, inr (POST_item (apiUrl ++ "/" ++ orderId ++ "/items") item)).

Definition removeItemFromOrder (st : ServiceState)
  (orderId productId : string) : ServiceState * OtherRequest :=
  (st, DELETE (apiUrl ++ "/" ++ orderId ++ "/items/" ++ productId)).

(** The [tap] callback of [addItemToOrder] and [removeItemFromOrder]: the
    list is updated as in [replaceOrder_tap], the current order is not. *)
Definition itemChange_tap (st : ServiceState) (orderId : string)
  (order : Order.t) : ServiceState :=
  mkState
    (map (fun o => if String.eqb (Order.id o) orderId then order else o)
       (ordersSignal st))
    (currentOrderSignal st) (loadingSignal st) (errorSignal st).

Definition trackOrder (st : ServiceState) (trackingNumber : string)
  : ServiceState * OtherRequest :=
  (st, GET (apiUrl ++ "/track/" ++ trackingNumber)).

Definition clearCurrentOrder (st : ServiceState) : ServiceState :=
  mkState (ordersSignal st) None (loadingSignal st) (errorSignal st).

Definition clearError (st : ServiceState) : ServiceState :=
  mkState (ordersSignal st) (currentOrderSignal st) (loadingSignal st) None.

(** *** handleError *)

(** What [error.error] of an [HttpErrorResponse] can be: a client-side
    [ErrorEvent] with its message, the body the server sent with its
    [message] property when it has one, or nothing. *)
Inductive ErrorBody : Set :=
  | ErrorEvent (message : string)
  | Body (message : option string)
  | NoBody.

Module HttpErrorResponse.
Record t : Set := mk { error : ErrorBody; status : Z }.
End HttpErrorResponse.

(** [error.error?.message || 'Invalid request'] *)
Definition messageOr (body : ErrorBody) (fallback : string) : string :=
  match body with
  | ErrorEvent m | Body (Some m) => if truthy m then m else fallback
  | Body None | NoBody => fallback
  end.

(** The state after the call and the message of the error rethrown. *)
Definition handleError (st : ServiceState) (error : HttpErrorResponse.t)
  : ServiceState * string :=
  let message :=
    match HttpErrorResponse.error error with
    | ErrorEvent m => m
    | _ =>
        if (HttpErrorResponse.status error =? 400)%Z
        then messageOr (HttpErrorResponse.error error) "Invalid request"
        else if (HttpErrorResponse.status error =? 404)%Z
        then "Order not found"
        else if (HttpErrorResponse.status error =? 409)%Z
        then "Order conflict - please refresh"
        else if (HttpErrorResponse.status error =? 500)%Z
        then "Server error. Please try again later."
        else "An unexpected error occurred"
    end in
  (mkState (ordersSignal st) (currentOrderSignal st) false (Some message),
   message).

(** *** getEstimatedDelivery

    A [Date] is kept as its local calendar day, counted from Thursday
    1 January 1970: [setDate(getDate() + n)] moves it by [n] days and
    [getDay()] is its day of the week, 0 for Sunday.  [now] is the day
    [new Date()] gives.  The [while] loop takes fuel; [None] is a loop
    that has not ended when the fuel is used up. *)

Inductive ShippingMethod : Set := standard | express | overnight.

Definition days (shippingMethod : ShippingMethod) : Z :=
  match shippingMethod with
  | standard => 5 | express => 2 | overnight => 1
  end.

Definition getDay (date : Z) : Z := ((date + 4) mod 7)%Z.

Fixpoint skipWeekends (fuel : nat) (deliveryDate : Z) : option Z :=
  match fuel with
  | O => None
  | S fuel' =>
      if (getDay deliveryDate =? 0)%Z || (getDay deliveryDate =? 6)%Z
      then skipWeekends fuel' (deliveryDate + 1)%Z
      else Some deliveryDate
  end.

Definition getEstimatedDelivery (fuel : nat) (now : Z)
  (shippingMethod : ShippingMethod) : option Z :=
  skipWeekends fuel (now + days shippingMethod)%Z.

(** ** A back end that applies status changes

    [requestStatuses] sends the status changes [targets] for one order one
    after the other; each request that passes the client-side check is
    answered with the locally held order in the requested status, as the
    mocked back end of order.service.spec.ts answers, and the answer goes
    through the [tap] callback.  The result is the state reached and the
    message of the first error thrown, if any. *)

Definition withStatus (o : Order.t) (s : OrderStatus) : Order.t :=
  Order.mk (Order.id o) (Order.userId o) (Order.items o) (Order.subtotal o)
    (Order.tax o) (Order.shipping o) (Order.total o) s
    (Order.shippingAddress o) (Order.billingAddress o) (Order.notes o)
    (Order.trackingNumber o) (Order.createdAt o) (Order.updatedAt o).

Fixpoint requestStatuses (st : ServiceState) (orderId : string)
  (targets : list OrderStatus) : ServiceState * option string :=
  match targets with
  | [] => (st, None)
  | target :: rest =>
      match updateOrderStatus st orderId target with
      | (st', Throw message) => (st', Some message)
      | (st', Http _) =>
          match findOrder st' orderId with
          | Some o =>
              requestStatuses
                (replaceOrder_tap st' orderId (withStatus o target))
                orderId rest
          | None => requestStatuses st' orderId rest
          end
      end
  end.

(** ** order-list.component.ts

    The component keeps signals of its own beside those of the service.
    Creation dates are valid dates, so the comparator of [filteredOrders]
    is the sign of a difference of integers.  [Array.prototype.sort] is
    stable, and its result is then determined by the comparator: it is
    computed here by insertion from the right, which keeps equal elements
    in their order.  A count of orders is a natural number.
    [filteredOrders] and [orderCountByStatus] are the functions these
    computed signals evaluate, applied to the signals as they are at the
    read; for [totalOrderValue], whose value depends on the order of the
    list, the cache of the computed signal is modelled as well, further
    down. *)

Inductive StatusFilter : Set := all | only (status : OrderStatus).

Inductive SortOrder : Set := asc | desc.

Module OrderList.
Record t : Set := mk
  { orders : list Order.t;
    isLoading : bool;
    error : option string;
    selectedOrderId : option string;
    filterStatus : StatusFilter;
    sortOrder : SortOrder }.
End OrderList.

(** The comparator [(a, b) => ...] handed to [sort]. *)
Definition compareOrders (direction : SortOrder) (a b : Order.t) : Z :=
  match direction with
  | desc => (Order.createdAt b - Order.createdAt a)%Z
  | asc => (Order.createdAt a - Order.createdAt b)%Z
  end.

Fixpoint insertOrder (direction : SortOrder) (x : Order.t)
  (sorted : list Order.t) : list Order.t :=
  match sorted with
  | [] => [x]
  | y :: rest =>
      if (compareOrders direction x y <=? 0)%Z then x :: y :: rest
      else y :: insertOrder direction x rest
  end.

Definition sortOrders (direction : SortOrder) (orders : list Order.t)
  : list Order.t :=
  fold_right (insertOrder direction) [] orders.

(** [filteredOrders]: the list shown and the component after the read.
    [sort] works in place: with the filter 'all' it is the array of the
    [orders] signal itself that is sorted, with a status filter it is the
    fresh array [filter] returned.  After [loadOrders] that array is also
    the one the service holds; this sharing with the service is left out,
    and nothing below reads the service's list after such a read. *)
Definition filteredOrders (c : OrderList.t) : OrderList.t * list Order.t :=
  match OrderList.filterStatus c with
  | all =>
      let result := sortOrders (OrderList.sortOrder c) (OrderList.orders c) in
      (OrderList.mk result (OrderList.isLoading c) (OrderList.error c)
         (OrderList.selectedOrderId c) (OrderList.filterStatus c)
         (OrderList.sortOrder c),
       result)
  | only status =>
      (c, sortOrders (OrderList.sortOrder c)
            (filter (fun o => status_eqb (Order.status o) status)
               (OrderList.orders c)))
  end.


(** The object [counts]: a status is a key of it or not. *)
Definition Counts : Set := OrderStatus -> option nat.

Definition orderCountByStatus (c : OrderList.t) : Counts :=
  fold_left
    (fun (counts : Counts) order =>
       let n := match counts (Order.status order) with
                | Some k => k
                | None => 0
                end + 1 in
       fun s => if status_eqb s (Order.status order) then Some n
                else counts s)
    (OrderList.orders c) (fun _ => None).

Definition statusOptions : list StatusFilter :=
  [all; only draft; only pending; only confirmed; only processing;
   only shipped; only delivered; only cancelled].

Definition selectOrder (c : OrderList.t) (orderId : string) : OrderList.t :=
  OrderList.mk (OrderList.orders c) (OrderList.isLoading c)
    (OrderList.error c) (Some orderId) (OrderList.filterStatus c)
    (OrderList.sortOrder c).

Definition setFilter (c : OrderList.t) (status : StatusFilter)
  : OrderList.t :=
  OrderList.mk (OrderList.orders c) (OrderList.isLoading c)
    (OrderList.error c) (OrderList.selectedOrderId c) status
    (OrderList.sortOrder c).

Definition toggleSortOrder (c : OrderList.t) : OrderList.t :=
  OrderList.mk (OrderList.orders c) (OrderList.isLoading c)
    (OrderList.error c) (OrderList.selectedOrderId c)
    (OrderList.filterStatus c)
    (match OrderList.sortOrder c with asc => desc | desc => asc end).

(** [loadOrders]: the call, and its two subscriber callbacks. *)
Definition loadOrders (st : ServiceState) (c : OrderList.t)
  (userId : string) : ServiceState * OrderList.t * OtherRequest :=
  let c' :=
    OrderList.mk (OrderList.orders c) true None
      (OrderList.selectedOrderId c) (OrderList.filterStatus c)
      (OrderList.sortOrder c) in
  let '(st', request) := getUserOrders st userId in
  (st', c', request).

Definition loadOrders_next (c : OrderList.t) (orders : list Order.t)
  : OrderList.t :=
  OrderList.mk orders false (OrderList.error c)
    (OrderList.selectedOrderId c) (OrderList.filterStatus c)
    (OrderList.sortOrder c).

Definition loadOrders_error (c : OrderList.t) (message : string)
  : OrderList.t :=
  OrderList.mk (OrderList.orders c) false (Some message)
    (OrderList.selectedOrderId c) (OrderList.filterStatus c)
    (OrderList.sortOrder c).

(** [cancelOrder] of the component: an error thrown by the service reaches
    the [error] callback at once; a request sent is answered later, and
    [cancelOrder_next] is the [next] callback. *)
Definition componentCancelOrder (st : ServiceState) (c : OrderList.t)
  (orderId : string) : ServiceState * OrderList.t * option HttpRequest :=
  match cancelOrder st orderId with
  | (st', Throw message) =>
      (st',
       OrderList.mk (OrderList.orders c) (OrderList.isLoading c)
         (Some message) (OrderList.selectedOrderId c)
         (OrderList.filterStatus c) (OrderList.sortOrder c),
       None)
  | (st', Http request) => (st', c, Some request)
  end.

Definition cancelOrder_next (c : OrderList.t) (orderId : string)
  (updatedOrder : Order.t) : OrderList.t :=
  OrderList.mk
    (map (fun o => if String.eqb (Order.id o) orderId then updatedOrder
                   else o)
       (OrderList.orders c))
    (OrderList.isLoading c) (OrderList.error c)
    (OrderList.selectedOrderId c) (OrderList.filterStatus c)
    (OrderList.sortOrder c).

Definition getStatusClass (status : OrderStatus) : string :=
  let classes :=
    match status with
    | draft => "status-draft" | pending => "status-pending"
    | confirmed => "status-confirmed" | processing => "status-processing"
    | shipped => "status-shipped" | delivered => "status-delivered"
    | cancelled => "status-cancelled" | refunded => "status-refunded"
    end in
  if truthy classes then classes else "".

(** ** Changing one field of an input *)

Definition withDiscount (item : OrderItem.t) (discount : float)
  : OrderItem.t :=
  OrderItem.mk (OrderItem.productId item) (OrderItem.productName item)
    (OrderItem.quantity item) (OrderItem.unitPrice item) discount
    (OrderItem.total item).

Definition withItems (dto : CreateOrderDTO.t) (items : list OrderItem.t)
  : CreateOrderDTO.t :=
  CreateOrderDTO.mk (CreateOrderDTO.userId dto) items
    (CreateOrderDTO.shippingAddress dto) (CreateOrderDTO.billingAddress dto)
    (CreateOrderDTO.notes dto).

(** ** Reading the component's computed values *)

(** How many of [orders] are in status [s]. *)
Definition countStatus (s : OrderStatus) (orders : list Order.t) : nat :=
  List.length (filter (fun o => status_eqb (Order.status o) s) orders).

(** The order [sort] is asked to establish: [a] may stand before [b]. *)
Definition inOrder (direction : SortOrder) (a b : Order.t) : Prop :=
  (compareOrders direction a b <= 0)%Z.

(** The orders [filteredOrders] selects before it sorts them. *)
Definition selectedOrders (c : OrderList.t) : list Order.t :=
  match OrderList.filterStatus c with
  | all => OrderList.orders c
  | only status =>
      filter (fun o => status_eqb (Order.status o) status)
        (OrderList.orders c)
  end.

(** [a] has to stand before [b]: the comparator is negative. *)
Definition before (direction : SortOrder) (a b : Order.t) : Prop :=
  (compareOrders direction a b < 0)%Z.

Definition toggled (direction : SortOrder) : SortOrder :=
  match direction with asc => desc | desc => asc end.

(** ** The cache of totalOrderValue

    [totalOrderValue] is a [computed]: its body runs at the first read and
    again at the first read after a write of the [orders] signal, the one
    signal it reads; in between the value is kept.  [ComponentView] is the
    component with that cache.  Sorting the array of [orders] in place is
    no write of the signal. *)






(** * Properties *)

(** ** Statuses and the table *)

Lemma status_eqb_eq (a b : OrderStatus) : status_eqb a b = true <-> a = b.
Proof. destruct a, b; simpl; split; congruence. Qed.

Lemma status_eqb_refl (a : OrderStatus) : status_eqb a a = true.
Proof. now destruct a. Qed.

Lemma includes_In (xs : list OrderStatus) (x : OrderStatus) :
  includes xs x = true <-> In x xs.
Proof.
  unfold includes. rewrite existsb_exists. split.
  - intros [y [Hy E]]. apply status_eqb_eq in E. now subst.
  - intros H. exists x. split; [exact H | apply status_eqb_refl].
Qed.

Lemma all_statuses_complete (s : OrderStatus) : In s all_statuses.
Proof. destruct s; simpl; tauto. Qed.

Lemma canTransition_allowed_next (current target : OrderStatus) :
  canTransition current target = true <-> allowed_next current target.
Proof.
  split.
  - destruct current, target; intros H; try discriminate H; constructor.
  - intros H; destruct H; reflexivity.
Qed.

(** The text of the transition error determines both statuses. *)
Lemma transitionMessage_inj (c t c' t' : OrderStatus) :
  transitionMessage c t = transitionMessage c' t' -> c = c' /\ t = t'.
Proof.
  intros E.
  assert (H : messages_distinct = true) by (vm_compute; reflexivity).
  unfold messages_distinct in H.
  rewrite forallb_forall in H.
  specialize (H c (all_statuses_complete c)).
  rewrite forallb_forall in H.
  specialize (H t (all_statuses_complete t)).
  rewrite forallb_forall in H.
  specialize (H c' (all_statuses_complete c')).
  rewrite forallb_forall in H.
  specialize (H t' (all_statuses_complete t')).
  rewrite E, String.eqb_refl in H. simpl in H.
  apply andb_true_iff in H. destruct H as [H1 H2].
  split; now apply status_eqb_eq.
Qed.

(** ** Looking an order up in the local list *)

Lemma findOrder_none (st : ServiceState) (orderId : string) :
  (forall o, In o (ordersSignal st) -> Order.id o <> orderId) ->
  findOrder st orderId = None.
Proof.
  unfold findOrder. intros H.
  induction (ordersSignal st) as [|o os IH]; simpl; [reflexivity|].
  destruct (String.eqb_spec (Order.id o) orderId) as [E|_].
  - exfalso. apply (H o); [now left | exact E].
  - apply IH. intros o' Ho'. apply H. now right.
Qed.

Lemma findOrder_replaceOrder_tap (st : ServiceState) (orderId : string)
  (o answer : Order.t) :
  findOrder st orderId = Some o ->
  Order.id answer = orderId ->
  findOrder (replaceOrder_tap st orderId answer) orderId = Some answer.
Proof.
  unfold findOrder, replaceOrder_tap. simpl. intros H Hid.
  induction (ordersSignal st) as [|x xs IH]; simpl in *; [discriminate|].
  destruct (String.eqb_spec (Order.id x) orderId) as [E|NE].
  - rewrite Hid, String.eqb_refl. reflexivity.
  - destruct (String.eqb_spec (Order.id x) orderId); [contradiction|].
    now apply IH.
Qed.

(** ** updateOrderStatus through the contract functions *)

Lemma transition_canTransition (current target : OrderStatus) :
  transition current target =
  if canTransition current target then inr target
  else inl (InvalidTransition (transitionMessage current target)).
Proof. unfold transition, canTransition. now destruct (includes _ _). Qed.

Lemma updateOrderStatus_found (st : ServiceState) (orderId : string)
  (o : Order.t) (target : OrderStatus) :
  findOrder st orderId = Some o ->
  updateOrderStatus st orderId target =
  (st, match transition (Order.status o) target with
       | inl (InvalidTransition message) => Throw message
       | inr t =>
           Http (PATCH_status (apiUrl ++ "/" ++ orderId ++ "/status") t)
       end).
Proof.
  intros H. unfold updateOrderStatus, transition. rewrite H.
  now destruct (includes _ _).
Qed.

(** ** The status machine *)

(** C1.  For every pair of statuses, [canTransition] is true exactly when
    the target is in the allowed-next set of the current status, both as
    the table of the source has it and as the data model lists it;
    [transition] returns the target in that case and otherwise fails with
    the transition error, whose text names the current and the target
    status and determines both; and on an order found in the local list
    [updateOrderStatus] does what [transition] decides. *)
Theorem transition_contract (current target : OrderStatus) :
  (canTransition current target = true <->
   In target (ORDER_STATUS_TRANSITIONS current))
  /\ (canTransition current target = true <-> allowed_next current target)
  /\ (In target (ORDER_STATUS_TRANSITIONS current) ->
      transition current target = inr target)
  /\ (~ In target (ORDER_STATUS_TRANSITIONS current) ->
      transition current target =
      inl (InvalidTransition
             ("Cannot transition from " ++ status_name current
              ++ " to " ++ status_name target)))
  /\ (forall c' t',
        transitionMessage current target = transitionMessage c' t' ->
        current = c' /\ target = t')
  /\ (forall st orderId o,
        findOrder st orderId = Some o ->
        Order.status o = current ->
        updateOrderStatus st orderId target =
        (st, if canTransition current target
             then Http (PATCH_status (apiUrl ++ "/" ++ orderId ++ "/status")
                          target)
             else Throw (transitionMessage current target))).
Proof.
  assert (Hin : canTransition current target = true <->
                In target (ORDER_STATUS_TRANSITIONS current))
    by apply includes_In.
  repeat split.
  - apply Hin.
  - apply Hin.
  - apply canTransition_allowed_next.
  - apply canTransition_allowed_next.
  - intros H. apply Hin in H.
    rewrite transition_canTransition, H. reflexivity.
  - intros H. rewrite transition_canTransition.
    destruct (canTransition current target) eqn:E; [|reflexivity].
    exfalso. apply H, Hin. reflexivity.
  - now apply transitionMessage_inj in H.
  - now apply transitionMessage_inj in H.
  - intros st orderId o Hfind Hst.
    rewrite (updateOrderStatus_found _ _ _ _ Hfind), Hst.
    rewrite transition_canTransition.
    now destruct (canTransition current target).
Qed.

Lemma transition_contract_witness :
  transition shipped cancelled =
  inl (InvalidTransition "Cannot transition from shipped to cancelled")
  /\ updateOrderStatus (stateWith [existingOrder "order-789" draft])
       "order-789" pending =
     (stateWith [existingOrder "order-789" draft],
      Http (PATCH_status "/api/orders/order-789/status" pending)).
Proof.
  split.
  - apply (transition_contract shipped cancelled).
    simpl. intros [H|[]]. discriminate H.
  - destruct (transition_contract draft pending) as (_ & _ & _ & _ & _ & H).
    apply (H (stateWith [existingOrder "order-789" draft]) "order-789"
             (existingOrder "order-789" draft)); reflexivity.
Defined.

(** C4.  [cancelled] and [refunded] are terminal: their allowed-next sets
    are empty, so from either of them [canTransition] is false and
    [transition] fails for every target, and [updateOrderStatus] fails on
    every locally held order in one of these statuses.
    [transition delivered refunded] succeeds with [refunded]; once the
    answer to that request, an order in status [refunded], has replaced the
    local copy, every further status change of the order fails. *)
Theorem terminal_states :
  ORDER_STATUS_TRANSITIONS cancelled = []
  /\ ORDER_STATUS_TRANSITIONS refunded = []
  /\ (forall target,
        canTransition cancelled target = false
        /\ canTransition refunded target = false
        /\ transition cancelled target =
           inl (InvalidTransition (transitionMessage cancelled target))
        /\ transition refunded target =
           inl (InvalidTransition (transitionMessage refunded target)))
  /\ transition delivered refunded = inr refunded
  /\ (forall st orderId o target,
        findOrder st orderId = Some o ->
        Order.status o = cancelled \/ Order.status o = refunded ->
        updateOrderStatus st orderId target =
        (st, Throw (transitionMessage (Order.status o) target)))
  /\ (forall st orderId o answer,
        findOrder st orderId = Some o ->
        Order.status o = delivered ->
        Order.id answer = orderId ->
        Order.status answer = refunded ->
        updateOrderStatus st orderId refunded =
        (st, Http (PATCH_status (apiUrl ++ "/" ++ orderId ++ "/status")
                     refunded))
        /\ forall target,
            updateOrderStatus (replaceOrder_tap st orderId answer) orderId
              target =
            (replaceOrder_tap st orderId answer,
             Throw (transitionMessage refunded target))).
Proof.
  split; [reflexivity|]. split; [reflexivity|].
  split; [intros target; repeat split; reflexivity|].
  split; [reflexivity|].
  split.
  - intros st orderId o target Hfind Hst.
    rewrite (updateOrderStatus_found _ _ _ _ Hfind).
    destruct Hst as [E|E]; rewrite E; reflexivity.
  - intros st orderId o answer Hfind Hst Hid Hans. split.
    + rewrite (updateOrderStatus_found _ _ _ _ Hfind), Hst. reflexivity.
    + intros target.
      rewrite (updateOrderStatus_found _ _ answer).
      * rewrite Hans. reflexivity.
      * now apply findOrder_replaceOrder_tap with (o := o).
Qed.

Lemma terminal_states_witness :
  forallb
    (fun target =>
       match snd (updateOrderStatus
                    (replaceOrder_tap
                       (stateWith [existingOrder "order-1" delivered])
                       "order-1" (existingOrder "order-1" refunded))
                    "order-1" target) with
       | Throw _ => true
       | Http _ => false
       end)
    all_statuses = true.
Proof.
  apply forallb_forall. intros target _.
  destruct terminal_states as (_ & _ & _ & _ & _ & H).
  destruct (H (stateWith [existingOrder "order-1" delivered]) "order-1"
              (existingOrder "order-1" delivered)
              (existingOrder "order-1" refunded)
              eq_refl eq_refl eq_refl eq_refl) as [_ Hafter].
  rewrite Hafter. reflexivity.
Defined.

(** C5.  [draft] is in no allowed-next set, so a sequence of allowed
    transitions that starts from [draft] never visits [draft] again. *)
Lemma valid_path_avoids_draft (s : OrderStatus) (path : list OrderStatus) :
  valid_path s path -> ~ In draft path.
Proof.
  revert s. induction path as [|t rest IH]; intros s Hpath Hin.
  - exact Hin.
  - destruct Hpath as [Hstep Hrest]. destruct Hin as [E|Hin].
    + subst t. destruct s; discriminate Hstep.
    + exact (IH t Hrest Hin).
Qed.

Theorem draft_never_revisited :
  (forall s, ~ In draft (ORDER_STATUS_TRANSITIONS s))
  /\ (forall s, canTransition s draft = false)
  /\ (forall path, valid_path draft path -> ~ In draft path).
Proof.
  split; [|split].
  - intros s H. destruct s; simpl in H; intuition discriminate.
  - intros s. now destruct s.
  - apply valid_path_avoids_draft.
Qed.

Lemma draft_never_revisited_witness :
  valid_path draft
    [pending; confirmed; processing; shipped; delivered; refunded]
  /\ ~ In draft
         [pending; confirmed; processing; shipped; delivered; refunded].
Proof.
  assert (H : valid_path draft
                [pending; confirmed; processing; shipped; delivered;
                 refunded])
    by (simpl; repeat split; reflexivity).
  split; [exact H|].
  destruct draft_never_revisited as (_ & _ & Hpath).
  exact (Hpath _ H).
Defined.

(** ** The service methods *)

(** C8.  For an order id that no locally held order has,
    [updateOrderStatus] raises no transition error whatever the requested
    status is: the state is left as it is and the status-change request
    goes out unchecked. *)
Theorem updateOrderStatus_unknown_order (st : ServiceState)
  (orderId : string) (newStatus : OrderStatus) :
  (forall o, In o (ordersSignal st) -> Order.id o <> orderId) ->
  updateOrderStatus st orderId newStatus =
  (st, Http (PATCH_status (apiUrl ++ "/" ++ orderId ++ "/status")
               newStatus)).
Proof.
  intros H. unfold updateOrderStatus.
  rewrite (findOrder_none st orderId H). reflexivity.
Qed.

Lemma updateOrderStatus_unknown_order_witness :
  updateOrderStatus (stateWith [existingOrder "order-1" shipped])
    "order-789" draft =
  (stateWith [existingOrder "order-1" shipped],
   Http (PATCH_status "/api/orders/order-789/status" draft)).
Proof.
  apply (updateOrderStatus_unknown_order
           (stateWith [existingOrder "order-1" shipped]) "order-789" draft).
  intros o [E|[]] Hid. subst o. discriminate Hid.
Defined.

(** C10.  [updateOrder] on an order found in the local list whose status
    is not [draft] fails with an error and leaves the state as it is. *)
Theorem updateOrder_only_in_draft (st : ServiceState) (orderId : string)
  (dto : UpdateOrderDTO.t) (o : Order.t) :
  findOrder st orderId = Some o ->
  Order.status o <> draft ->
  updateOrder st orderId dto =
  (st, Throw "Can only update orders in draft status").
Proof.
  intros Hfind Hst. unfold updateOrder. rewrite Hfind.
  destruct (status_eqb (Order.status o) draft) eqn:E; [|reflexivity].
  apply status_eqb_eq in E. contradiction.
Qed.

Lemma updateOrder_only_in_draft_witness :
  updateOrder (stateWith [existingOrder "order-1" pending]) "order-1"
    (UpdateOrderDTO.mk None None None (Some "leave at the door")) =
  (stateWith [existingOrder "order-1" pending],
   Throw "Can only update orders in draft status").
Proof.
  apply (updateOrder_only_in_draft
           (stateWith [existingOrder "order-1" pending]) "order-1"
           (UpdateOrderDTO.mk None None None (Some "leave at the door"))
           (existingOrder "order-1" pending)).
  - reflexivity.
  - discriminate.
Defined.

(** C3, as the source has it.  [cancelOrder] on a locally held order in
    status [shipped] or [delivered] fails on a guard of its own, before
    the table is consulted, with the error "Cannot cancel order in ...
    status"; that text is not the transition error [updateOrderStatus]
    raises for the same order and target [cancelled].  For every other
    order id [cancelOrder] is [updateOrderStatus] with target
    [cancelled], decided by the table alone. *)
Theorem cancelOrder_guard (st : ServiceState) (orderId : string) :
  (forall o,
     findOrder st orderId = Some o ->
     Order.status o = shipped \/ Order.status o = delivered ->
     cancelOrder st orderId =
     (st, Throw ("Cannot cancel order in " ++ status_name (Order.status o)
                 ++ " status"))
     /\ updateOrderStatus st orderId cancelled =
        (st, Throw (transitionMessage (Order.status o) cancelled))
     /\ cancelOrder st orderId <> updateOrderStatus st orderId cancelled)
  /\ ((forall o,
         findOrder st orderId = Some o ->
         Order.status o <> shipped /\ Order.status o <> delivered) ->
      cancelOrder st orderId = updateOrderStatus st orderId cancelled).
Proof.
  split.
  - intros o Hfind Hst.
    assert (Hc : cancelOrder st orderId =
                 (st, Throw ("Cannot cancel order in "
                             ++ status_name (Order.status o) ++ " status"))).
    { unfold cancelOrder. rewrite Hfind.
      destruct Hst as [E|E]; rewrite E; reflexivity. }
    assert (Hu : updateOrderStatus st orderId cancelled =
                 (st, Throw (transitionMessage (Order.status o) cancelled))).
    { rewrite (updateOrderStatus_found _ _ _ _ Hfind).
      destruct Hst as [E|E]; rewrite E; reflexivity. }
    split; [exact Hc|]. split; [exact Hu|].
    rewrite Hc, Hu. intros Heq.
    destruct Hst as [E|E]; rewrite E in Heq; discriminate Heq.
  - intros H. unfold cancelOrder.
    destruct (findOrder st orderId) as [o|] eqn:Hfind; [|reflexivity].
    destruct (H o eq_refl) as [Hs Hd].
    destruct (status_eqb (Order.status o) shipped) eqn:E1.
    { apply status_eqb_eq in E1. contradiction. }
    destruct (status_eqb (Order.status o) delivered) eqn:E2.
    { apply status_eqb_eq in E2. contradiction. }
    reflexivity.
Qed.

Lemma cancelOrder_guard_witness :
  cancelOrder (stateWith [existingOrder "order-1" delivered]) "order-1" =
  (stateWith [existingOrder "order-1" delivered],
   Throw "Cannot cancel order in delivered status")
  /\ cancelOrder (stateWith [existingOrder "order-1" pending]) "order-1" =
     (stateWith [existingOrder "order-1" pending],
      Http (PATCH_status "/api/orders/order-1/status" cancelled)).
Proof.
  split.
  - destruct (cancelOrder_guard
                (stateWith [existingOrder "order-1" delivered]) "order-1")
      as [H _].
    destruct (H (existingOrder "order-1" delivered) eq_refl
                (or_intror eq_refl)) as [Hc _].
    exact Hc.
  - destruct (cancelOrder_guard
                (stateWith [existingOrder "order-1" pending]) "order-1")
      as [_ H].
    rewrite H; [reflexivity|].
    intros o Hfind. injection Hfind as <-. split; discriminate.
Defined.

(** C3, as stated, fails: on a shipped order [cancelOrder] does not raise
    the transition error that the table check of [updateOrderStatus]
    raises for the target [cancelled], but an error of its own. *)
Lemma cancelOrder_shipped_distinct_error :
  snd (cancelOrder (stateWith [existingOrder "order-1" shipped]) "order-1")
  = Throw "Cannot cancel order in shipped status"
  /\ snd (updateOrderStatus (stateWith [existingOrder "order-1" shipped])
            "order-1" cancelled)
     = Throw "Cannot transition from shipped to cancelled"
  /\ snd (cancelOrder (stateWith [existingOrder "order-1" shipped])
            "order-1")
     <> Throw (transitionMessage shipped cancelled).
Proof.
  split; [reflexivity|]. split; [reflexivity|].
  intros H. discriminate H.
Qed.

(** ** Order totals *)

(** [Math_round] on the cases that set it apart from other roundings:
    ties go up, also below zero; the largest number below one half is not
    pushed to 1; small negative numbers give [-0]; numbers too large to
    have a fraction, infinities and NaN are returned as they are. *)
Example Math_round_samples :
  map Math_round
    [2.5; -2.5; 0.49999999999999994; -0.5; -0.2; 61.5; -3.7; 2.4;
     4503599627370497; 1e300; 0; -0; infinity; neg_infinity; nan]%float
  = [3; -2; 0; -0; -0; 62; -4; 2;
     4503599627370497; 1e300; 0; -0; infinity; neg_infinity; nan]%float.
Proof. vm_compute. reflexivity. Qed.

Lemma reduce_sum_map (items : list OrderItem.t) (acc : float) :
  fold_left (fun sum item => (sum + lineTotal item)%float) items acc =
  fold_left (fun acc x => (acc + x)%float) (map lineTotal items) acc.
Proof.
  revert acc. induction items as [|item rest IH]; intros acc; simpl.
  - reflexivity.
  - apply IH.
Qed.

Lemma Math_round_nearest (y : float) :
  nearestIntegerTiesUp y (Math_round y).
Proof.
  unfold nearestIntegerTiesUp, Math_round.
  destruct (Prim2SF y) as [s| s| |s m e]; try reflexivity.
  destruct (Z.leb_spec 0 e) as [He|He]; [reflexivity|].
  assert (Hd : (0 < 2 ^ (- e))%Z) by (apply Z.pow_pos_nonneg; lia).
  set (d := (2 ^ (- e))%Z) in *.
  pose proof (Z.div_mod (Z.pos m) d ltac:(lia)) as Hdm.
  pose proof (Z.mod_pos_bound (Z.pos m) d Hd) as Hr.
  set (q := (Z.pos m / d)%Z) in *. set (r := (Z.pos m mod d)%Z) in *.
  destruct s; simpl signedMantissa.
  - destruct (Z.ltb_spec d (2 * r)) as [H|H].
    + exists (- (q + 1))%Z. split.
      * change (Z.neg m) with (- Z.pos m)%Z. nia.
      * unfold ofInteger. now rewrite Z.opp_involutive.
    + exists (- q)%Z. split.
      * change (Z.neg m) with (- Z.pos m)%Z. nia.
      * unfold ofInteger. now rewrite Z.opp_involutive.
  - destruct (Z.leb_spec d (2 * r)) as [H|H].
    + exists (q + 1)%Z. split; [nia | reflexivity].
    + exists q. split; [nia | reflexivity].
Qed.

(** The rounding is a function: [nearestIntegerTiesUp] leaves one result. *)
Lemma nearestIntegerTiesUp_unique (y r r' : float) :
  nearestIntegerTiesUp y r -> nearestIntegerTiesUp y r' -> r = r'.
Proof.
  unfold nearestIntegerTiesUp.
  destruct (Prim2SF y) as [s| s| |s m e]; try congruence.
  destruct (Z.leb_spec 0 e) as [He|He]; [congruence|].
  assert (Hd : (0 < 2 ^ (- e))%Z) by (apply Z.pow_pos_nonneg; lia).
  intros [n [Hn ->]] [n' [Hn' ->]].
  assert (n = n') by nia. now subst.
Qed.

(** [ofInteger] on the cents of the scenarios. *)
Example ofInteger_samples :
  map (fun n => (ofInteger false n / 100)%float) [760; 999; 11259; 1005]%Z
  = [7.6; 9.99; 112.59; 10.05]%float
  /\ ofInteger true 0 = (-0)%float
  /\ option_map (Qeq_bool (inject_Z 1005)) (exactValue (ofInteger false 1005))
     = Some true
  /\ option_map (Qeq_bool (inject_Z (-3))) (exactValue (ofInteger true (-3)))
     = Some true.
Proof. vm_compute. repeat split. Qed.

(** C2, as the source has it.  For every sequence of items, in binary64
    arithmetic: the subtotal is the sum over the items, in order, of
    [unitPrice * quantity * (1 - discount / 100)]; shipping is 0 when the
    subtotal is at least 100 and 9.99 otherwise; the tax is [n / 100] for
    the integer [n] nearest to the product [subtotal * 0.08 * 100], and
    the total is [n' / 100] for the integer [n'] nearest to
    [(subtotal + tax + shipping) * 100], a tie going to the larger
    integer.  What is rounded is the product with 100 as binary64 has it,
    not the exact hundredfold of the amount. *)
Theorem calculateOrderTotals_scaled_rounding (items : list OrderItem.t) :
  let totals := calculateOrderTotals items in
  OrderTotals.subtotal totals = sum (map lineTotal items)
  /\ OrderTotals.shipping totals =
     (if (100 <=? OrderTotals.subtotal totals)%float then 0 else 9.99)%float
  /\ (exists n,
        nearestIntegerTiesUp
          (OrderTotals.subtotal totals * 0.08 * 100)%float n
        /\ OrderTotals.tax totals = (n / 100)%float)
  /\ (exists n,
        nearestIntegerTiesUp
          ((OrderTotals.subtotal totals + OrderTotals.tax totals
            + OrderTotals.shipping totals) * 100)%float n
        /\ OrderTotals.total totals = (n / 100)%float).
Proof.
  unfold calculateOrderTotals.
  cbn [OrderTotals.subtotal OrderTotals.tax OrderTotals.shipping
       OrderTotals.total].
  split; [|split; [reflexivity|split]].
  - change (fun (sum : float) (item : OrderItem.t) =>
              (sum + OrderItem.unitPrice item * OrderItem.quantity item
                     * (1 - OrderItem.discount item / 100))%float)
      with (fun sum item => (sum + lineTotal item)%float).
    apply reduce_sum_map.
  - eexists. split; [apply Math_round_nearest | reflexivity].
  - eexists. split; [apply Math_round_nearest | reflexivity].
Qed.

(** C2, as stated, fails, however "rounded to two decimal places" is
    read.  For one unit at 0.11 with a 50 percent discount, the binary64
    sum of subtotal, tax and shipping lies strictly between 10.04 and
    10.045, so that 10.04 is the nearest number of two decimal places, and
    the total returned is 10.05.  For one unit at 0.31 with a 50 percent
    discount, exact decimal arithmetic gives 10.155 and so 10.16, and the
    total returned is 10.15. *)
Lemma calculateOrderTotals_not_nearest_cent :
  (let totals :=
     calculateOrderTotals [OrderItem.mk "p1" None 1 0.11 50 None] in
   option_map (fun v => (Qcompare (1004 / 100) v, Qcompare v (10045 / 1000)))
     (exactValue (beforeRounding totals)) = Some (Lt, Lt)
   /\ nearestCents (beforeRounding totals) = Some 1004%Z
   /\ OrderTotals.total totals = 10.05%float
   /\ (OrderTotals.total totals =? 10.04)%float = false)
  /\ (let totals :=
        calculateOrderTotals [OrderItem.mk "p1" None 1 0.31 50 None] in
      Qeq_bool (decimalTotal [(31 / 100, 1, 50)%Q]) (1016 / 100) = true
      /\ OrderTotals.total totals = 10.15%float
      /\ (OrderTotals.total totals =? 10.16)%float = false).
Proof. vm_compute. repeat split. Qed.

(** C6.  On the empty item sequence the subtotal and the tax are 0 and
    both shipping and total are the standard shipping cost, 9.99. *)
Theorem calculateOrderTotals_empty :
  calculateOrderTotals [] =
  OrderTotals.mk 0 0 STANDARD_SHIPPING_COST STANDARD_SHIPPING_COST
  /\ STANDARD_SHIPPING_COST = 9.99%float
  /\ (FREE_SHIPPING_THRESHOLD <=? 0)%float = false.
Proof. vm_compute. repeat split. Qed.

(** C7.  Two units at 25 without discount and one unit at 50 with a 10
    percent discount: subtotal 95, tax 7.60, shipping 9.99 as 95 is below
    the threshold of 100, total 112.59. *)
Theorem calculateOrderTotals_two_items
  (id1 id2 : string) (name1 name2 : option string)
  (total1 total2 : option float) :
  calculateOrderTotals
    [ OrderItem.mk id1 name1 2 25 0 total1;
      OrderItem.mk id2 name2 1 50 10 total2 ]
  = OrderTotals.mk 95 7.60 9.99 112.59
  /\ (95 <? FREE_SHIPPING_THRESHOLD)%float = true.
Proof. vm_compute. split; reflexivity. Qed.

(** The second scenario of the totals: five units at 25 reach the
    free-shipping threshold. *)
Example calculateOrderTotals_free_shipping :
  calculateOrderTotals [OrderItem.mk "p1" None 5 25 0 None]
  = OrderTotals.mk 125 10 0 135.
Proof. vm_compute. reflexivity. Qed.

(** ** createOrder *)

Lemma truthy_min_length (s : string) (k : nat) (x : bool) :
  (0 < k)%nat ->
  x && truthy s && (k <=? String.length s)%nat =
  x && (k <=? String.length s)%nat.
Proof.
  intros Hk. destruct s as [|c s]; simpl.
  - destruct k; [lia|]. simpl. now rewrite !andb_false_r.
  - now rewrite andb_true_r.
Qed.

Lemma isValidAddress_minimum_lengths (address : Address.t) :
  isValidAddress address = meetsMinimumLengths address.
Proof.
  unfold isValidAddress, meetsMinimumLengths.
  rewrite <- (andb_true_l (truthy (Address.street address))).
  rewrite !truthy_min_length by lia.
  reflexivity.
Qed.

Lemma checkItems_spec (items : list OrderItem.t) :
  match checkItems items with
  | None =>
      existsb (fun item => (OrderItem.quantity item <=? 0)%float) items
      = false
      /\ existsb (fun item => (OrderItem.unitPrice item <? 0)%float) items
         = false
  | Some message =>
      (existsb (fun item => (OrderItem.quantity item <=? 0)%float) items
       || existsb (fun item => (OrderItem.unitPrice item <? 0)%float) items)
      = true
      /\ (message = "Item quantity must be positive"
          \/ message = "Item price cannot be negative")
  end.
Proof.
  induction items as [|item rest IH]; simpl.
  - split; reflexivity.
  - destruct (OrderItem.quantity item <=? 0)%float; simpl.
    + split; [reflexivity | now left].
    + destruct (OrderItem.unitPrice item <? 0)%float; simpl.
      * split; [apply orb_true_r | now right].
      * exact IH.
Qed.

(** C9.  [createOrder] answers with an error, with the state untouched
    and nothing computed or sent, whenever the item list is empty, some
    item has a quantity at most 0, some item has a unit price below 0, or
    the shipping address misses a minimum field length; in every other
    case the totals of the items are computed and posted together with the
    input, the list of orders still unchanged. *)
Theorem createOrder_validation (st : ServiceState) (dto : CreateOrderDTO.t) :
  (rejected dto = true ->
   exists message,
     createOrder st dto = (st, Throw message)
     /\ In message
          [ "Order must contain at least one item";
            "Item quantity must be positive";
            "Item price cannot be negative";
            "Invalid shipping address" ])
  /\ (rejected dto = false ->
      createOrder st dto =
      (mkState (ordersSignal st) (currentOrderSignal st) true None,
       Http (POST_order apiUrl
               (mkOrderData dto
                  (calculateOrderTotals (CreateOrderDTO.items dto)))))).
Proof.
  unfold rejected, createOrder.
  rewrite <- isValidAddress_minimum_lengths.
  pose proof (checkItems_spec (CreateOrderDTO.items dto)) as Hitems.
  destruct (CreateOrderDTO.items dto) as [|item rest] eqn:Eitems.
  - split; [|discriminate]. intros _.
    exists "Order must contain at least one item".
    split; [reflexivity | simpl; auto].
  - rewrite orb_false_l.
    destruct (checkItems (item :: rest)) as [message|].
    + destruct Hitems as [Hex Hmsg]. rewrite Hex, orb_true_l. split.
      * intros _. exists message. split; [reflexivity|].
        simpl. destruct Hmsg; auto.
      * discriminate.
    + destruct Hitems as [Hq Hp]. rewrite Hq, Hp. simpl orb.
      destruct (isValidAddress (CreateOrderDTO.shippingAddress dto)); simpl.
      * split; [discriminate | reflexivity].
      * split; [|discriminate]. intros _.
        exists "Invalid shipping address".
        split; [reflexivity | simpl; auto 10].
Qed.

Lemma createOrder_validation_witness :
  (exists message,
     createOrder emptyState
       (CreateOrderDTO.mk "user-123" [] validAddress None None)
     = (emptyState, Throw message)
     /\ In message
          [ "Order must contain at least one item";
            "Item quantity must be positive";
            "Item price cannot be negative";
            "Invalid shipping address" ])
  /\ createOrder emptyState validOrderDTO =
     (mkState [] None true None,
      Http (POST_order "/api/orders"
              (mkOrderData validOrderDTO
                 (calculateOrderTotals validItems)))).
Proof.
  split.
  - apply (createOrder_validation emptyState
             (CreateOrderDTO.mk "user-123" [] validAddress None None)).
    reflexivity.
  - apply (createOrder_validation emptyState validOrderDTO).
    vm_compute. reflexivity.
Defined.

(** * Further properties of the code *)

(** ** The transition table as a graph *)

Lemma rank_increases (a b : OrderStatus) :
  canTransition a b = true -> rank a < rank b.
Proof. destruct a, b; intros H; try discriminate H; simpl; lia. Qed.

Lemma rank_bound (s : OrderStatus) : rank s <= 6.
Proof. destruct s; simpl; lia. Qed.

Lemma valid_path_rank (s : OrderStatus) (path : list OrderStatus) :
  valid_path s path -> forall t, In t path -> rank s < rank t.
Proof.
  revert s. induction path as [|u rest IH]; intros s Hpath t Hin.
  - destruct Hin.
  - destruct Hpath as [Hstep Hrest]. apply rank_increases in Hstep.
    destruct Hin as [<-|Hin]; [exact Hstep|].
    specialize (IH u Hrest t Hin). lia.
Qed.

(** X1.  The table has no cycle: along a sequence of allowed transitions,
    from whatever status it starts, no status occurs twice (in particular
    no status is its own successor), and the sequence has at most six
    steps. *)
Theorem transitions_acyclic (s : OrderStatus) (path : list OrderStatus) :
  valid_path s path ->
  NoDup (s :: path) /\ List.length path + rank s <= 6.
Proof.
  revert s. induction path as [|t rest IH]; intros s Hpath.
  - split; [repeat constructor; intros [] | pose proof (rank_bound s); simpl; lia].
  - pose proof (valid_path_rank s (t :: rest) Hpath) as Hrank.
    destruct Hpath as [Hstep Hrest].
    destruct (IH t Hrest) as [Hnd Hlen]. split.
    + constructor; [|exact Hnd].
      intros Hin. specialize (Hrank s Hin). lia.
    + apply rank_increases in Hstep. simpl. lia.
Qed.

Lemma transitions_acyclic_witness :
  NoDup [draft; pending; confirmed; processing; shipped; delivered; refunded]
  /\ canTransition shipped shipped = false.
Proof.
  split.
  - apply (transitions_acyclic draft
             [pending; confirmed; processing; shipped; delivered; refunded]).
    simpl. repeat split; reflexivity.
  - reflexivity.
Defined.

(** X2.  Every status can be reached from [draft] by allowed transitions;
    the statuses without a successor are exactly [cancelled] and
    [refunded]; and from every status some sequence of allowed transitions
    ends in one of these two. *)
Theorem lifecycle_shape (s : OrderStatus) :
  (exists path, valid_path draft path /\ last path draft = s)
  /\ (ORDER_STATUS_TRANSITIONS s = [] <-> s = cancelled \/ s = refunded)
  /\ (exists path,
        valid_path s path
        /\ (last path s = cancelled \/ last path s = refunded)).
Proof.
  split; [|split].
  - destruct s.
    + exists []. now split.
    + exists [pending]. now repeat split.
    + exists [pending; confirmed]. now repeat split.
    + exists [pending; confirmed; processing]. now repeat split.
    + exists [pending; confirmed; processing; shipped]. now repeat split.
    + exists [pending; confirmed; processing; shipped; delivered].
      now repeat split.
    + exists [cancelled]. now repeat split.
    + exists [pending; confirmed; processing; shipped; delivered; refunded].
      now repeat split.
  - destruct s; simpl; split; intros H;
      try discriminate H; try reflexivity; auto;
      destruct H as [H|H]; discriminate H.
  - destruct s.
    + exists [cancelled]. split; [now repeat split | now left].
    + exists [cancelled]. split; [now repeat split | now left].
    + exists [cancelled]. split; [now repeat split | now left].
    + exists [cancelled]. split; [now repeat split | now left].
    + exists [delivered; refunded]. split; [now repeat split | now right].
    + exists [refunded]. split; [now repeat split | now right].
    + exists []. split; [exact I | now left].
    + exists []. split; [exact I | now right].
Qed.

(** ** Cancelling *)

(** X3.  The guard of [cancelOrder] changes the error, never the verdict:
    [cancelOrder] sends its request exactly when [updateOrderStatus] with
    target [cancelled] would, and then it is the same request; the state
    is left as it is; and for an order found in the local list the request
    is sent exactly when the status is [draft], [pending], [confirmed] or
    [processing]. *)
Theorem cancelOrder_verdict (st : ServiceState) (orderId : string) :
  fst (cancelOrder st orderId) = st
  /\ match snd (cancelOrder st orderId),
           snd (updateOrderStatus st orderId cancelled) with
     | Http r, Http r' => r = r'
     | Throw _, Throw _ => True
     | _, _ => False
     end
  /\ (forall o,
        findOrder st orderId = Some o ->
        ((exists r, snd (cancelOrder st orderId) = Http r) <->
         In (Order.status o) [draft; pending; confirmed; processing])).
Proof.
  unfold cancelOrder, updateOrderStatus.
  destruct (findOrder st orderId) as [o|] eqn:Hfind.
  - destruct (Order.status o) eqn:Hst; simpl; (split; [reflexivity|]);
      (split; [try reflexivity; exact I|]);
      intros o' Ho'; injection Ho' as <-; rewrite Hst; simpl;
      (split; [intros [r Hr]; try discriminate Hr; tauto
              | intros H; try (eexists; reflexivity);
                exfalso; intuition discriminate]).
  - simpl. split; [reflexivity|]. split; [reflexivity|].
    intros o Ho. discriminate Ho.
Qed.

Lemma cancelOrder_verdict_witness :
  (exists r,
     snd (cancelOrder (stateWith [existingOrder "order-1" processing])
            "order-1") = Http r)
  <-> In processing [draft; pending; confirmed; processing].
Proof.
  destruct (cancelOrder_verdict
              (stateWith [existingOrder "order-1" processing]) "order-1")
    as (_ & _ & H).
  exact (H (existingOrder "order-1" processing) eq_refl).
Defined.

(** ** Status changes answered by the back end *)

Lemma findOrder_id (st : ServiceState) (orderId : string) (o : Order.t) :
  findOrder st orderId = Some o ->
  In o (ordersSignal st) /\ Order.id o = orderId.
Proof.
  unfold findOrder. intros H. apply find_some in H.
  destruct H as [Hin E]. split; [exact Hin | now apply String.eqb_eq].
Qed.

Lemma withStatus_same (o : Order.t) : withStatus o (Order.status o) = o.
Proof. now destruct o. Qed.

Lemma last_cons (t d : OrderStatus) (rest : list OrderStatus) :
  last (t :: rest) d = last rest t.
Proof.
  revert t d. induction rest as [|u rest IH]; intros t d; [reflexivity|].
  change (last (t :: u :: rest) d) with (last (u :: rest) d).
  rewrite (IH u d). symmetry. apply IH.
Qed.

Lemma requestStatuses_spec (targets : list OrderStatus) :
  forall st orderId o,
    findOrder st orderId = Some o ->
    (valid_path (Order.status o) targets ->
     snd (requestStatuses st orderId targets) = None
     /\ findOrder (fst (requestStatuses st orderId targets)) orderId =
        Some (withStatus o (last targets (Order.status o))))
    /\ (snd (requestStatuses st orderId targets) = None ->
        valid_path (Order.status o) targets).
Proof.
  induction targets as [|t rest IH]; intros st orderId o Hfind.
  - simpl. split; [|trivial]. intros _. split; [reflexivity|].
    now rewrite withStatus_same.
  - simpl requestStatuses.
    rewrite (updateOrderStatus_found _ _ _ _ Hfind).
    rewrite transition_canTransition.
    destruct (canTransition (Order.status o) t) eqn:Hstep.
    + rewrite Hfind.
      assert (Hid : Order.id (withStatus o t) = orderId)
        by (simpl; apply (findOrder_id _ _ _ Hfind)).
      pose proof (findOrder_replaceOrder_tap st orderId o (withStatus o t)
                    Hfind Hid) as Hfind'.
      destruct (IH _ _ _ Hfind') as [IH1 IH2]. simpl Order.status in *.
      split.
      * intros [_ Hrest]. destruct (IH1 Hrest) as [Hnone Hlast].
        split; [exact Hnone|]. rewrite Hlast, last_cons. reflexivity.
      * intros Hnone. split; [exact Hstep | exact (IH2 Hnone)].
    + simpl. split.
      * intros [Hbad _]. congruence.
      * intros Hnone. discriminate Hnone.
Qed.

(** X4.  A series of status changes of a locally held order, each
    accepted change being applied by the back end and fed back through
    the [tap] callback, goes through without an error exactly when the
    series is a sequence of allowed transitions from the status the order
    had; the order is then held in the last status requested. *)
Theorem requestStatuses_valid_path (st : ServiceState) (orderId : string)
  (o : Order.t) (targets : list OrderStatus) :
  findOrder st orderId = Some o ->
  (snd (requestStatuses st orderId targets) = None <->
   valid_path (Order.status o) targets)
  /\ (valid_path (Order.status o) targets ->
      findOrder (fst (requestStatuses st orderId targets)) orderId =
      Some (withStatus o (last targets (Order.status o)))).
Proof.
  intros Hfind.
  destruct (requestStatuses_spec targets st orderId o Hfind) as [H1 H2].
  split; [split|].
  - exact H2.
  - intros Hp. apply (H1 Hp).
  - intros Hp. apply (H1 Hp).
Qed.

Lemma requestStatuses_valid_path_witness :
  findOrder
    (fst (requestStatuses (stateWith [existingOrder "order-789" draft])
            "order-789" [pending; confirmed; cancelled]))
    "order-789"
  = Some (existingOrder "order-789" cancelled)
  /\ snd (requestStatuses (stateWith [existingOrder "order-789" draft])
            "order-789" [pending; shipped])
     <> None.
Proof.
  split.
  - apply (requestStatuses_valid_path
             (stateWith [existingOrder "order-789" draft]) "order-789"
             (existingOrder "order-789" draft)
             [pending; confirmed; cancelled] eq_refl).
    simpl. repeat split; reflexivity.
  - intros H.
    apply (requestStatuses_valid_path
             (stateWith [existingOrder "order-789" draft]) "order-789"
             (existingOrder "order-789" draft) [pending; shipped] eq_refl)
      in H.
    destruct H as [_ [H _]]. discriminate H.
Defined.

(** ** Answers entering the local list *)

Lemma findOrder_app (orders more : list Order.t) (orderId : string) :
  find (fun o => String.eqb (Order.id o) orderId) (orders ++ more)%list =
  match find (fun o => String.eqb (Order.id o) orderId) orders with
  | Some o => Some o
  | None => find (fun o => String.eqb (Order.id o) orderId) more
  end.
Proof.
  induction orders as [|x xs IH]; simpl; [reflexivity|].
  destruct (String.eqb (Order.id x) orderId); [reflexivity | exact IH].
Qed.

Lemma createOrder_accepted (st : ServiceState) (dto : CreateOrderDTO.t) :
  rejected dto = false ->
  createOrder st dto =
  (mkState (ordersSignal st) (currentOrderSignal st) true None,
   Http (POST_order apiUrl
           (mkOrderData dto
              (calculateOrderTotals (CreateOrderDTO.items dto))))).
Proof.
  unfold rejected, createOrder.
  rewrite <- isValidAddress_minimum_lengths.
  pose proof (checkItems_spec (CreateOrderDTO.items dto)) as Hitems.
  destruct (CreateOrderDTO.items dto) as [|item rest]; [discriminate|].
  rewrite orb_false_l.
  destruct (checkItems (item :: rest)) as [message|].
  - destruct Hitems as [Hex _]. rewrite Hex. discriminate.
  - destruct Hitems as [Hq Hp]. rewrite Hq, Hp. simpl orb.
    destruct (isValidAddress (CreateOrderDTO.shippingAddress dto));
      [reflexivity | discriminate].
Qed.

Lemma createOrder_rejected (st : ServiceState) (dto : CreateOrderDTO.t) :
  rejected dto = true ->
  exists message, createOrder st dto = (st, Throw message).
Proof.
  unfold rejected, createOrder.
  rewrite <- isValidAddress_minimum_lengths.
  pose proof (checkItems_spec (CreateOrderDTO.items dto)) as Hitems.
  destruct (CreateOrderDTO.items dto) as [|item rest];
    [intros _; eexists; reflexivity|].
  rewrite orb_false_l.
  destruct (checkItems (item :: rest)) as [message|];
    [intros _; eexists; reflexivity|].
  destruct Hitems as [Hq Hp]. rewrite Hq, Hp. simpl orb.
  destruct (isValidAddress (CreateOrderDTO.shippingAddress dto));
    [discriminate | intros _; eexists; reflexivity].
Qed.

(** X5.  An accepted [createOrder] followed by its answer: the answer is
    appended to the list and becomes the current order, the loading flag
    is down again and the error is cleared.  A lookup by id finds what it
    found before, and the new order only under an id that was not held:
    an answer whose id is already in the list is shadowed by the older
    entry. *)
Theorem createOrder_then_answer (st : ServiceState)
  (dto : CreateOrderDTO.t) (order : Order.t) :
  rejected dto = false ->
  let st' := createOrder_tap (fst (createOrder st dto)) order in
  ordersSignal st' = (ordersSignal st ++ [order])%list
  /\ currentOrderSignal st' = Some order
  /\ loadingSignal st' = false
  /\ errorSignal st' = None
  /\ forall orderId,
       findOrder st' orderId =
       match findOrder st orderId with
       | Some o => Some o
       | None =>
           if String.eqb (Order.id order) orderId then Some order else None
       end.
Proof.
  intros Hacc. rewrite (createOrder_accepted st dto Hacc). simpl.
  repeat split. intros orderId. unfold findOrder. simpl.
  rewrite findOrder_app. reflexivity.
Qed.

Lemma createOrder_then_answer_witness :
  findOrder
    (createOrder_tap (fst (createOrder emptyState validOrderDTO))
       (existingOrder "order-456" draft))
    "order-456"
  = Some (existingOrder "order-456" draft).
Proof.
  assert (H : rejected validOrderDTO = false) by (vm_compute; reflexivity).
  destruct (createOrder_then_answer emptyState validOrderDTO
              (existingOrder "order-456" draft) H) as (_ & _ & _ & _ & Hf).
  rewrite Hf. reflexivity.
Defined.

Lemma replace_not_held (orders : list Order.t) (orderId : string)
  (answer : Order.t) :
  (forall o, In o orders -> Order.id o <> orderId) ->
  map (fun o => if String.eqb (Order.id o) orderId then answer else o)
    orders = orders.
Proof.
  induction orders as [|x xs IH]; intros H; simpl; [reflexivity|].
  destruct (String.eqb_spec (Order.id x) orderId) as [E|_].
  - exfalso. apply (H x); [now left | exact E].
  - f_equal. apply IH. intros o Ho. apply H. now right.
Qed.

Lemma find_replace_other (orders : list Order.t) (orderId other : string)
  (answer : Order.t) :
  Order.id answer = orderId ->
  other <> orderId ->
  find (fun o => String.eqb (Order.id o) other)
    (map (fun o => if String.eqb (Order.id o) orderId then answer else o)
       orders)
  = find (fun o => String.eqb (Order.id o) other) orders.
Proof.
  intros Hid Hne. induction orders as [|x xs IH]; simpl; [reflexivity|].
  destruct (String.eqb_spec (Order.id x) orderId) as [E|NE].
  - rewrite Hid, E.
    destruct (String.eqb_spec orderId other) as [E'|_];
      [now subst | exact IH].
  - destruct (String.eqb (Order.id x) other); [reflexivity | exact IH].
Qed.

(** X6.  What the answer to [updateOrderStatus] or [updateOrder] does to
    the local list: the list keeps its length; when no held order has the
    id the list is left as it is, so the answer is dropped and a later
    status change of that order goes out unchecked again; and when the
    answer carries the id asked for, lookups under every other id find
    what they found before. *)
Theorem replaceOrder_tap_lookup (st : ServiceState) (orderId : string)
  (answer : Order.t) :
  List.length (ordersSignal (replaceOrder_tap st orderId answer)) =
  List.length (ordersSignal st)
  /\ ((forall o, In o (ordersSignal st) -> Order.id o <> orderId) ->
      ordersSignal (replaceOrder_tap st orderId answer) = ordersSignal st
      /\ forall target,
           snd (updateOrderStatus (replaceOrder_tap st orderId answer)
                  orderId target) =
           Http (PATCH_status (apiUrl ++ "/" ++ orderId ++ "/status")
                   target))
  /\ (Order.id answer = orderId ->
      forall other,
        other <> orderId ->
        findOrder (replaceOrder_tap st orderId answer) other =
        findOrder st other).
Proof.
  split; [|split].
  - unfold replaceOrder_tap. simpl. apply length_map.
  - intros H.
    assert (E : ordersSignal (replaceOrder_tap st orderId answer) =
                ordersSignal st)
      by (unfold replaceOrder_tap; simpl; now apply replace_not_held).
    split; [exact E|]. intros target. unfold updateOrderStatus.
    rewrite findOrder_none; [reflexivity|]. rewrite E. exact H.
  - intros Hid other Hne. unfold findOrder, replaceOrder_tap. simpl.
    now apply find_replace_other.
Qed.

Lemma replaceOrder_tap_lookup_witness :
  ordersSignal
    (replaceOrder_tap (stateWith [existingOrder "order-1" shipped])
       "order-789" (existingOrder "order-789" pending))
  = [existingOrder "order-1" shipped]
  /\ findOrder
       (replaceOrder_tap (stateWith [existingOrder "order-1" shipped])
          "order-789" (existingOrder "order-789" pending))
       "order-1"
     = Some (existingOrder "order-1" shipped).
Proof.
  destruct (replaceOrder_tap_lookup
              (stateWith [existingOrder "order-1" shipped]) "order-789"
              (existingOrder "order-789" pending)) as (_ & Hdrop & Hother).
  split.
  - apply Hdrop. intros o [<-|[]]. discriminate.
  - rewrite (Hother eq_refl "order-1"); [reflexivity | discriminate].
Defined.

(** ** The computed lists of the service *)

Lemma In_replace (orders : list Order.t) (orderId : string)
  (answer : Order.t) (x : Order.t) :
  In x (map (fun o => if String.eqb (Order.id o) orderId then answer else o)
          orders) ->
  x = answer \/ (In x orders /\ Order.id x <> orderId).
Proof.
  intros H. apply in_map_iff in H. destruct H as [o [E Ho]].
  destruct (String.eqb_spec (Order.id o) orderId) as [Eid|NE].
  - left. now symmetry.
  - right. subst x. now split.
Qed.

(** X7.  No order is listed both as pending and as completed.  Once the
    answer to a status change of a held order is in, carrying the id
    asked for and the status [delivered], the answer is among the
    completed orders and no pending order has that id. *)
Theorem completed_after_delivery (st : ServiceState) :
  (forall x, In x (pendingOrders st) -> ~ In x (completedOrders st))
  /\ (forall orderId o answer,
        findOrder st orderId = Some o ->
        Order.id answer = orderId ->
        Order.status answer = delivered ->
        In answer (completedOrders (replaceOrder_tap st orderId answer))
        /\ forall x,
             In x (pendingOrders (replaceOrder_tap st orderId answer)) ->
             Order.id x <> orderId).
Proof.
  split.
  - unfold pendingOrders, completedOrders. intros x Hp Hc.
    apply filter_In in Hp. apply filter_In in Hc.
    destruct Hp as [_ Hp]. destruct Hc as [_ Hc].
    apply status_eqb_eq in Hp. apply status_eqb_eq in Hc. congruence.
  - intros orderId o answer Hfind Hid Hst. split.
    + unfold completedOrders. apply filter_In. split.
      * pose proof (findOrder_replaceOrder_tap st orderId o answer Hfind Hid)
          as H.
        apply (findOrder_id _ _ _ H).
      * rewrite Hst. reflexivity.
    + intros x Hx. unfold pendingOrders in Hx. apply filter_In in Hx.
      destruct Hx as [Hin Hp]. apply status_eqb_eq in Hp.
      unfold replaceOrder_tap in Hin. simpl in Hin.
      apply In_replace in Hin. destruct Hin as [->|[_ Hne]].
      * congruence.
      * exact Hne.
Qed.

Lemma completed_after_delivery_witness :
  In (existingOrder "order-1" delivered)
    (completedOrders
       (replaceOrder_tap (stateWith [existingOrder "order-1" shipped])
          "order-1" (existingOrder "order-1" delivered))).
Proof.
  destruct (completed_after_delivery
              (stateWith [existingOrder "order-1" shipped])) as [_ H].
  apply (H "order-1" (existingOrder "order-1" shipped)
           (existingOrder "order-1" delivered) eq_refl eq_refl eq_refl).
Defined.

(** ** Failed requests *)

(** X8.  [handleError] lowers the loading flag, records the message it
    rethrows and leaves the orders alone.  Unless the failure is a
    client-side [ErrorEvent], the message is never empty; the text the
    server sent is shown only for status 400, and only when it is not
    empty; for every other status the message is one of four fixed
    texts. *)
Theorem handleError_message (st : ServiceState)
  (err : HttpErrorResponse.t) :
  errorSignal (fst (handleError st err)) = Some (snd (handleError st err))
  /\ loadingSignal (fst (handleError st err)) = false
  /\ ordersSignal (fst (handleError st err)) = ordersSignal st
  /\ currentOrderSignal (fst (handleError st err)) = currentOrderSignal st
  /\ ((forall m, HttpErrorResponse.error err <> ErrorEvent m) ->
      snd (handleError st err) <> ""
      /\ (HttpErrorResponse.status err <> 400%Z ->
          In (snd (handleError st err))
            [ "Order not found"; "Order conflict - please refresh";
              "Server error. Please try again later.";
              "An unexpected error occurred" ])
      /\ (HttpErrorResponse.status err = 400%Z ->
          snd (handleError st err) =
          match HttpErrorResponse.error err with
          | Body (Some (String c m)) => String c m
          | _ => "Invalid request"
          end)).
Proof.
  repeat (split; [reflexivity|]).
  intros Hne. unfold handleError. simpl snd.
  destruct (HttpErrorResponse.error err) as [m|m|] eqn:Herr;
    [exfalso; exact (Hne m eq_refl)| |];
    (destruct (Z.eqb_spec (HttpErrorResponse.status err) 400) as [E4|N4];
     [|destruct (Z.eqb_spec (HttpErrorResponse.status err) 404);
       [|destruct (Z.eqb_spec (HttpErrorResponse.status err) 409);
         [|destruct (Z.eqb_spec (HttpErrorResponse.status err) 500)]]]);
    try (split; [discriminate|]; split;
         [intros _; simpl; auto 10 | intros E; contradiction]).
  - destruct m as [[|c m]|]; simpl;
      (split; [discriminate|]; split;
       [intros N; contradiction | intros _; reflexivity]).
  - simpl. split; [discriminate|].
    split; [intros N; contradiction | intros _; reflexivity].
Qed.

Lemma handleError_message_witness :
  In (snd (handleError emptyState
             (HttpErrorResponse.mk (Body (Some "Out of stock")) 403)))
    [ "Order not found"; "Order conflict - please refresh";
      "Server error. Please try again later.";
      "An unexpected error occurred" ]
  /\ snd (handleError emptyState
            (HttpErrorResponse.mk (Body (Some "Out of stock")) 400))
     = "Out of stock".
Proof.
  assert (Hne : forall m, Body (Some "Out of stock") <> ErrorEvent m)
    by discriminate.
  split.
  - destruct (handleError_message emptyState
                (HttpErrorResponse.mk (Body (Some "Out of stock")) 403))
      as (_ & _ & _ & _ & H).
    destruct (H Hne) as (_ & H403 & _). apply H403. discriminate.
  - destruct (handleError_message emptyState
                (HttpErrorResponse.mk (Body (Some "Out of stock")) 400))
      as (_ & _ & _ & _ & H).
    destruct (H Hne) as (_ & _ & H400). exact (H400 eq_refl).
Defined.

(** ** What createOrder and addItemToOrder do not check *)

Lemma checkItems_withDiscount (f : OrderItem.t -> float)
  (items : list OrderItem.t) :
  checkItems (map (fun item => withDiscount item (f item)) items) =
  checkItems items.
Proof.
  induction items as [|item rest IH]; simpl; [reflexivity|].
  now rewrite IH.
Qed.

Lemma existsb_withDiscount (p : OrderItem.t -> bool)
  (f : OrderItem.t -> float) (items : list OrderItem.t) :
  (forall item, p (withDiscount item (f item)) = p item) ->
  existsb p (map (fun item => withDiscount item (f item)) items) =
  existsb p items.
Proof.
  intros Hp. induction items as [|item rest IH]; simpl; [reflexivity|].
  now rewrite Hp, IH.
Qed.

(** X9.  [createOrder] never looks at a discount: replacing the discounts
    of the items by any others changes neither whether the input is turned
    away nor the error it is turned away with. *)
Theorem createOrder_ignores_discount (st : ServiceState)
  (dto : CreateOrderDTO.t) (f : OrderItem.t -> float) :
  let dto' :=
    withItems dto
      (map (fun item => withDiscount item (f item))
         (CreateOrderDTO.items dto)) in
  rejected dto' = rejected dto
  /\ forall message,
       createOrder st dto' = (st, Throw message) <->
       createOrder st dto = (st, Throw message).
Proof.
  simpl. split.
  - unfold rejected, withItems. simpl.
    rewrite !existsb_withDiscount by reflexivity.
    now destruct (CreateOrderDTO.items dto).
  - intros message. unfold createOrder, withItems.
    cbn [CreateOrderDTO.items CreateOrderDTO.shippingAddress].
    rewrite checkItems_withDiscount.
    generalize (checkItems (CreateOrderDTO.items dto)). intros ck.
    destruct (CreateOrderDTO.items dto) as [|item rest]; cbn [map];
      [split; intros H; exact H|].
    destruct ck; [split; intros H; exact H|].
    destruct (isValidAddress (CreateOrderDTO.shippingAddress dto));
      cbn [negb]; [|split; intros H; exact H].
    split; intros H; discriminate H.
Qed.

(** X10.  [addItemToOrder] checks the quantity and nothing else: an item
    whose quantity is not at most 0 is sent on for every order id,
    whatever the local list says about the order; when its unit price is
    below 0, [createOrder] on the other hand turns away every input that
    contains it. *)
Theorem addItemToOrder_checks_quantity_only (item : OrderItem.t) :
  (OrderItem.quantity item <=? 0)%float = false ->
  (forall st orderId,
     addItemToOrder st orderId item =
     (st, inr (POST_item (apiUrl ++ "/" ++ orderId ++ "/items") item)))
  /\ ((OrderItem.unitPrice item <? 0)%float = true ->
      forall st dto,
        In item (CreateOrderDTO.items dto) ->
        exists message, createOrder st dto = (st, Throw message)).
Proof.
  intros Hq. split.
  - intros st orderId. unfold addItemToOrder. now rewrite Hq.
  - intros Hp st dto Hin. apply createOrder_rejected.
    unfold rejected.
    assert (E : existsb (fun i => (OrderItem.unitPrice i <? 0)%float)
                  (CreateOrderDTO.items dto) = true)
      by (apply existsb_exists; exists item; now split).
    rewrite E. now rewrite orb_true_r.
Qed.

Lemma addItemToOrder_checks_quantity_only_witness :
  addItemToOrder (stateWith [existingOrder "order-1" refunded]) "order-1"
    (OrderItem.mk "prod-3" None 1 (-5) 0 None)
  = (stateWith [existingOrder "order-1" refunded],
     inr (POST_item "/api/orders/order-1/items"
            (OrderItem.mk "prod-3" None 1 (-5) 0 None))).
Proof.
  apply (addItemToOrder_checks_quantity_only
           (OrderItem.mk "prod-3" None 1 (-5) 0 None)).
  vm_compute. reflexivity.
Defined.

(** ** getEstimatedDelivery *)

Lemma skipWeekends_offset (fuel : nat) (date : Z) :
  3 <= fuel ->
  skipWeekends fuel date =
  Some (date + (if (getDay date =? 6)%Z then 2
                else if (getDay date =? 0)%Z then 1 else 0))%Z.
Proof.
  intros Hfuel.
  destruct fuel as [|[|[|fuel]]]; try lia. simpl.
  unfold getDay.
  repeat match goal with
         | |- context [(?a =? ?b)%Z] => destruct (Z.eqb_spec a b)
         end; simpl;
    try (exfalso; Z.div_mod_to_equations; lia);
    f_equal; lia.
Qed.

(** X11.  With fuel for three turns of the loop, [getEstimatedDelivery]
    returns a date: the first day that is neither a Saturday nor a Sunday
    from the day [days] calendar days after today on, so at most two days
    after that day.  Weekend days in between are not skipped: the days
    are calendar days, not business days. *)
Theorem getEstimatedDelivery_weekday (fuel : nat) (now : Z)
  (shippingMethod : ShippingMethod) :
  3 <= fuel ->
  exists date,
    getEstimatedDelivery fuel now shippingMethod = Some date
    /\ getDay date <> 0%Z /\ getDay date <> 6%Z
    /\ (now + days shippingMethod <= date <= now + days shippingMethod + 2)%Z
    /\ forall d,
         (now + days shippingMethod <= d < date)%Z ->
         getDay d = 0%Z \/ getDay d = 6%Z.
Proof.
  intros Hfuel. unfold getEstimatedDelivery.
  rewrite (skipWeekends_offset fuel _ Hfuel).
  eexists. split; [reflexivity|].
  generalize (now + days shippingMethod)%Z. intros start.
  unfold getDay.
  destruct (Z.eqb_spec ((start + 4) mod 7) 6) as [E6|N6];
    [|destruct (Z.eqb_spec ((start + 4) mod 7) 0) as [E0|N0]];
    repeat split; try (intros d Hd);
    Z.div_mod_to_equations; lia.
Qed.

Lemma getEstimatedDelivery_weekday_witness :
  exists date,
    getEstimatedDelivery 3 4 standard = Some date
    /\ getDay date <> 0%Z /\ getDay date <> 6%Z
    /\ (4 + days standard <= date <= 4 + days standard + 2)%Z
    /\ forall d,
         (4 + days standard <= d < date)%Z ->
         getDay d = 0%Z \/ getDay d = 6%Z.
Proof.
  apply (getEstimatedDelivery_weekday 3 4 standard). lia.
Defined.

(** A Monday order with standard shipping: day 4 is Monday 5 January
    1970, five days on is Saturday, and the estimate is the Monday
    after. *)
Example getEstimatedDelivery_monday :
  getDay 4 = 1%Z /\ getEstimatedDelivery 3 4 standard = Some 11%Z.
Proof. split; reflexivity. Qed.

(** ** NaN in an order *)

Lemma add_nan_l (x : float) : (nan + x)%float = nan.
Proof. apply FloatAxioms.Prim2SF_inj. rewrite FloatAxioms.add_spec. reflexivity. Qed.

Lemma add_nan_r (x : float) : (x + nan)%float = nan.
Proof.
  apply FloatAxioms.Prim2SF_inj. rewrite FloatAxioms.add_spec.
  change (Prim2SF nan) with S754_nan. now destruct (Prim2SF x).
Qed.

Lemma mul_nan_l (x : float) : (nan * x)%float = nan.
Proof. apply FloatAxioms.Prim2SF_inj. rewrite FloatAxioms.mul_spec. reflexivity. Qed.

Lemma mul_nan_r (x : float) : (x * nan)%float = nan.
Proof.
  apply FloatAxioms.Prim2SF_inj. rewrite FloatAxioms.mul_spec.
  change (Prim2SF nan) with S754_nan. now destruct (Prim2SF x).
Qed.

Lemma lineTotal_nan (item : OrderItem.t) :
  OrderItem.quantity item = nan \/ OrderItem.unitPrice item = nan
  \/ OrderItem.discount item = nan ->
  lineTotal item = nan.
Proof.
  unfold lineTotal. intros [E|[E|E]]; rewrite E.
  - now rewrite mul_nan_r, mul_nan_l.
  - now rewrite !mul_nan_l.
  - replace (1 - nan / 100)%float with nan; [apply mul_nan_r|].
    symmetry. apply FloatAxioms.Prim2SF_inj. rewrite FloatAxioms.sub_spec, FloatAxioms.div_spec. reflexivity.
Qed.

Lemma reduce_nan (items : list OrderItem.t) (acc : float) :
  acc = nan \/ (exists item, In item items /\ lineTotal item = nan) ->
  fold_left (fun sum item => (sum + lineTotal item)%float) items acc = nan.
Proof.
  revert acc. induction items as [|x xs IH]; intros acc H; simpl.
  - destruct H as [H|[item [[] _]]]. exact H.
  - apply IH. destruct H as [->|[item [[<-|Hin] E]]].
    + left. apply add_nan_l.
    + left. rewrite E. apply add_nan_r.
    + right. exists item. now split.
Qed.

(** X12.  NaN goes through: when one item of the list has NaN as its
    quantity, unit price or discount, the subtotal, the tax and the total
    are NaN and the standard shipping cost is charged.  The checks of
    [createOrder] do not stop a NaN quantity, NaN being neither at most 0
    nor below 0: an input that passes them is posted with these totals. *)
Theorem NaN_reaches_totals (items : list OrderItem.t) (item : OrderItem.t) :
  In item items ->
  OrderItem.quantity item = nan \/ OrderItem.unitPrice item = nan
  \/ OrderItem.discount item = nan ->
  calculateOrderTotals items =
  OrderTotals.mk nan nan STANDARD_SHIPPING_COST nan
  /\ forall st dto,
       CreateOrderDTO.items dto = items ->
       rejected dto = false ->
       snd (createOrder st dto) =
       Http (POST_order apiUrl
               (mkOrderData dto
                  (OrderTotals.mk nan nan STANDARD_SHIPPING_COST nan))).
Proof.
  intros Hin Hnan.
  assert (E : calculateOrderTotals items =
              OrderTotals.mk nan nan STANDARD_SHIPPING_COST nan).
  { unfold calculateOrderTotals.
    change (fun (sum : float) (item : OrderItem.t) =>
              (sum + OrderItem.unitPrice item * OrderItem.quantity item
                     * (1 - OrderItem.discount item / 100))%float)
      with (fun sum item => (sum + lineTotal item)%float).
    rewrite reduce_nan.
    - vm_compute. reflexivity.
    - right. exists item. split; [exact Hin | now apply lineTotal_nan]. }
  split; [exact E|].
  intros st dto Hitems Hacc.
  rewrite (createOrder_accepted st dto Hacc), Hitems, E. reflexivity.
Qed.

Lemma NaN_reaches_totals_witness :
  rejected
    (CreateOrderDTO.mk "user-123"
       [OrderItem.mk "prod-1" None nan 25 0 None] validAddress None None)
  = false
  /\ calculateOrderTotals [OrderItem.mk "prod-1" None nan 25 0 None] =
     OrderTotals.mk nan nan STANDARD_SHIPPING_COST nan.
Proof.
  split; [vm_compute; reflexivity|].
  apply (NaN_reaches_totals [OrderItem.mk "prod-1" None nan 25 0 None]
           (OrderItem.mk "prod-1" None nan 25 0 None)).
  - now left.
  - now left.
Defined.

(** ** The order list component: counting *)

Lemma status_eqb_sym (a b : OrderStatus) : status_eqb a b = status_eqb b a.
Proof. now destruct a, b. Qed.

Lemma countStatus_cons (s : OrderStatus) (x : Order.t)
  (orders : list Order.t) :
  countStatus s (x :: orders) =
  (if status_eqb (Order.status x) s then 1 else 0) + countStatus s orders.
Proof.
  unfold countStatus. simpl.
  now destruct (status_eqb (Order.status x) s).
Qed.

Lemma count_fold (orders : list Order.t) :
  forall (counts : Counts) (s : OrderStatus),
    fold_left
      (fun (counts : Counts) order =>
         let n := match counts (Order.status order) with
                  | Some k => k
                  | None => 0
                  end + 1 in
         fun s => if status_eqb s (Order.status order) then Some n
                  else counts s)
      orders counts s =
    match countStatus s orders with
    | 0 => counts s
    | S n => Some (S n + match counts s with Some k => k | None => 0 end)
    end.
Proof.
  induction orders as [|x xs IH]; intros counts s; [reflexivity|].
  simpl fold_left. rewrite IH, countStatus_cons.
  rewrite (status_eqb_sym (Order.status x) s).
  destruct (status_eqb s (Order.status x)) eqn:E.
  - apply status_eqb_eq in E. subst s.
    destruct (countStatus (Order.status x) xs); simpl; f_equal; lia.
  - simpl. reflexivity.
Qed.

Lemma countStatus_total (orders : list Order.t) :
  list_sum (map (fun s => countStatus s orders) all_statuses) =
  List.length orders.
Proof.
  induction orders as [|x xs IH]; [reflexivity|].
  simpl in *. rewrite !countStatus_cons.
  destruct (Order.status x); simpl; lia.
Qed.

(** X13.  [orderCountByStatus] has a key for a status exactly when some
    order of the list is in that status, and the value is then the number
    of these orders, never 0; over the eight statuses the values add up
    to the length of the list. *)
Theorem orderCountByStatus_counts (c : OrderList.t) :
  (forall s,
     orderCountByStatus c s =
     match countStatus s (OrderList.orders c) with
     | 0 => None
     | S n => Some (S n)
     end)
  /\ (forall s,
        orderCountByStatus c s = None <->
        forall o, In o (OrderList.orders c) -> Order.status o <> s)
  /\ list_sum
       (map (fun s => match orderCountByStatus c s with
                      | Some n => n
                      | None => 0
                      end) all_statuses)
     = List.length (OrderList.orders c).
Proof.
  assert (H : forall s,
             orderCountByStatus c s =
             match countStatus s (OrderList.orders c) with
             | 0 => None
             | S n => Some (S n)
             end).
  { intros s. unfold orderCountByStatus. rewrite count_fold.
    destruct (countStatus s (OrderList.orders c)); [reflexivity|].
    f_equal. lia. }
  split; [exact H|]. split.
  - intros s. rewrite H. unfold countStatus. split.
    + intros Hnone o Ho Hs.
      destruct (filter _ (OrderList.orders c)) as [|y ys] eqn:Ef;
        [|discriminate Hnone].
      assert (Hin : In o (filter (fun o => status_eqb (Order.status o) s)
                            (OrderList.orders c)))
        by (apply filter_In; split; [exact Ho | now apply status_eqb_eq]).
      rewrite Ef in Hin. exact Hin.
    + intros Hall.
      destruct (filter _ (OrderList.orders c)) as [|y ys] eqn:Ef;
        [reflexivity|].
      assert (Hin : In y (filter (fun o => status_eqb (Order.status o) s)
                            (OrderList.orders c)))
        by (rewrite Ef; now left).
      apply filter_In in Hin. destruct Hin as [Hy Hs].
      apply status_eqb_eq in Hs. exfalso. exact (Hall y Hy Hs).
  - rewrite <- countStatus_total. f_equal.
    apply map_ext. intros s. rewrite H.
    now destruct (countStatus s (OrderList.orders c)).
Qed.

Lemma orderCountByStatus_counts_witness :
  orderCountByStatus
    (OrderList.mk [existingOrder "order-1" shipped] false None None all desc)
    pending = None.
Proof.
  destruct (orderCountByStatus_counts
              (OrderList.mk [existingOrder "order-1" shipped] false None None
                 all desc)) as (_ & H & _).
  apply H. intros o [<-|[]]. discriminate.
Defined.

(** ** The order list component: the list shown *)

Lemma insertOrder_perm (direction : SortOrder) (x : Order.t)
  (sorted : list Order.t) :
  Permutation (insertOrder direction x sorted) (x :: sorted).
Proof.
  induction sorted as [|y rest IH]; simpl; [apply Permutation_refl|].
  destruct (compareOrders direction x y <=? 0)%Z.
  - apply Permutation_refl.
  - apply perm_trans with (y :: x :: rest).
    + now apply perm_skip.
    + apply perm_swap.
Qed.

Lemma sortOrders_perm (direction : SortOrder) (orders : list Order.t) :
  Permutation (sortOrders direction orders) orders.
Proof.
  induction orders as [|x xs IH]; simpl; [apply perm_nil|].
  apply perm_trans with (x :: sortOrders direction xs).
  - apply insertOrder_perm.
  - now apply perm_skip.
Qed.

Lemma inOrder_total (direction : SortOrder) (a b : Order.t) :
  ~ inOrder direction a b -> inOrder direction b a.
Proof. unfold inOrder. destruct direction; simpl; lia. Qed.

Lemma inOrder_trans (direction : SortOrder) (a b c : Order.t) :
  inOrder direction a b -> inOrder direction b c -> inOrder direction a c.
Proof. unfold inOrder. destruct direction; simpl; lia. Qed.

Lemma insertOrder_sorted (direction : SortOrder) (x : Order.t)
  (sorted : list Order.t) :
  StronglySorted (inOrder direction) sorted ->
  StronglySorted (inOrder direction) (insertOrder direction x sorted).
Proof.
  induction sorted as [|y rest IH]; intros Hs; simpl.
  - constructor; constructor.
  - inversion Hs as [|? ? Hrest Hall]; subst.
    destruct (Z.leb_spec (compareOrders direction x y) 0) as [Hle|Hgt].
    + constructor; [exact Hs|]. constructor; [exact Hle|].
      apply Forall_impl with (P := inOrder direction y); [|exact Hall].
      intros z Hz. now apply inOrder_trans with y.
    + constructor; [now apply IH|].
      assert (Hyx : inOrder direction y x)
        by (apply inOrder_total; unfold inOrder; lia).
      apply Forall_forall. intros z Hz.
      apply (Permutation_in _ (insertOrder_perm direction x rest)) in Hz.
      destruct Hz as [<-|Hz]; [exact Hyx|].
      rewrite Forall_forall in Hall. now apply Hall.
Qed.

Lemma sortOrders_sorted (direction : SortOrder) (orders : list Order.t) :
  StronglySorted (inOrder direction) (sortOrders direction orders).
Proof.
  induction orders as [|x xs IH]; simpl; [constructor|].
  now apply insertOrder_sorted.
Qed.

Lemma insertOrder_same_date (direction : SortOrder) (t : Z) (x : Order.t)
  (sorted : list Order.t) :
  filter (fun o => (Order.createdAt o =? t)%Z)
    (insertOrder direction x sorted) =
  filter (fun o => (Order.createdAt o =? t)%Z) (x :: sorted).
Proof.
  induction sorted as [|y rest IH]; [reflexivity|].
  simpl insertOrder.
  destruct (Z.leb_spec (compareOrders direction x y) 0) as [Hle|Hgt];
    [reflexivity|].
  simpl in *. rewrite IH.
  destruct (Z.eqb_spec (Order.createdAt x) t) as [Ex|Nx];
    destruct (Z.eqb_spec (Order.createdAt y) t) as [Ey|Ny];
    try reflexivity.
  exfalso. unfold compareOrders in Hgt. destruct direction; lia.
Qed.

Lemma sortOrders_same_date (direction : SortOrder) (t : Z)
  (orders : list Order.t) :
  filter (fun o => (Order.createdAt o =? t)%Z)
    (sortOrders direction orders) =
  filter (fun o => (Order.createdAt o =? t)%Z) orders.
Proof.
  induction orders as [|x xs IH]; [reflexivity|].
  simpl sortOrders. rewrite insertOrder_same_date. simpl. now rewrite IH.
Qed.

(** X14.  The list [filteredOrders] shows holds exactly the orders
    selected by the filter, each as often as it was selected; it is in
    the order of the creation dates, newest first for 'desc' and oldest
    first for 'asc'; orders created at the same instant keep the order
    they had.  Reading it with the filter 'all' leaves the component's
    own list sorted the same way, reading it with a status filter leaves
    the component as it was. *)
Theorem filteredOrders_shown (c : OrderList.t) :
  Permutation (snd (filteredOrders c)) (selectedOrders c)
  /\ StronglySorted
       (fun a b =>
          match OrderList.sortOrder c with
          | desc => (Order.createdAt b <= Order.createdAt a)%Z
          | asc => (Order.createdAt a <= Order.createdAt b)%Z
          end)
       (snd (filteredOrders c))
  /\ (forall t,
        filter (fun o => (Order.createdAt o =? t)%Z) (snd (filteredOrders c))
        = filter (fun o => (Order.createdAt o =? t)%Z) (selectedOrders c))
  /\ (forall status o,
        OrderList.filterStatus c = only status ->
        In o (snd (filteredOrders c)) -> Order.status o = status)
  /\ OrderList.orders (fst (filteredOrders c)) =
     match OrderList.filterStatus c with
     | all => snd (filteredOrders c)
     | only _ => OrderList.orders c
     end.
Proof.
  assert (Hs : snd (filteredOrders c) =
               sortOrders (OrderList.sortOrder c) (selectedOrders c))
    by (unfold filteredOrders, selectedOrders;
        now destruct (OrderList.filterStatus c)).
  split; [rewrite Hs; apply sortOrders_perm|].
  split.
  { rewrite Hs.
    pose proof (sortOrders_sorted (OrderList.sortOrder c)
                  (selectedOrders c)) as H.
    revert H. apply StronglySorted_ind.
    - constructor.
    - intros a l _ IH Hall. constructor; [exact IH|].
      apply Forall_impl with (P := inOrder (OrderList.sortOrder c) a);
        [|exact Hall].
      intros b. unfold inOrder, compareOrders.
      destruct (OrderList.sortOrder c); lia. }
  split; [intros t; rewrite Hs; apply sortOrders_same_date|].
  split.
  - intros status o Hf Hin. rewrite Hs in Hin.
    apply (Permutation_in _ (sortOrders_perm _ _)) in Hin.
    unfold selectedOrders in Hin. rewrite Hf in Hin.
    apply filter_In in Hin. now apply status_eqb_eq.
  - unfold filteredOrders. now destruct (OrderList.filterStatus c).
Qed.

(** The fixtures with creation dates 1, 2 and 3, newest first. *)
Example filteredOrders_sample :
  map Order.id
    (snd (filteredOrders
            (OrderList.mk
               [ Order.mk "b" "u" [] 0 0 0 0 pending validAddress None None
                   None 2 2;
                 Order.mk "a" "u" [] 0 0 0 0 shipped validAddress None None
                   None 1 1;
                 Order.mk "c" "u" [] 0 0 0 0 pending validAddress None None
                   None 3 3 ]
               false None None all desc)))
  = ["c"; "b"; "a"].
Proof. reflexivity. Qed.

Lemma filteredOrders_shown_witness :
  forallb (fun o => status_eqb (Order.status o) pending)
    (snd (filteredOrders
            (OrderList.mk
               [existingOrder "order-1" pending;
                existingOrder "order-2" shipped]
               false None None (only pending) desc)))
  = true.
Proof.
  apply forallb_forall. intros o Ho. apply status_eqb_eq.
  destruct (filteredOrders_shown
              (OrderList.mk
                 [existingOrder "order-1" pending;
                  existingOrder "order-2" shipped]
                 false None None (only pending) desc))
    as (_ & _ & _ & H & _).
  exact (H pending o eq_refl Ho).
Defined.

(** ** The order list component: turning the list round *)

Lemma sorted_snoc (R : Order.t -> Order.t -> Prop) (l : list Order.t)
  (a : Order.t) :
  StronglySorted R l -> Forall (fun x => R x a) l ->
  StronglySorted R (l ++ [a])%list.
Proof.
  induction l as [|x xs IH]; intros Hs Hall; simpl.
  - constructor; constructor.
  - inversion Hs as [|? ? Hxs Hx]; subst.
    inversion Hall as [|? ? Hxa Hrest]; subst.
    constructor; [now apply IH|].
    apply Forall_app. split; [exact Hx | now constructor].
Qed.

Lemma sorted_rev (R : Order.t -> Order.t -> Prop) (l : list Order.t) :
  StronglySorted R l -> StronglySorted (fun a b => R b a) (rev l).
Proof.
  induction l as [|x xs IH]; intros Hs; simpl; [constructor|].
  inversion Hs as [|? ? Hxs Hx]; subst.
  apply sorted_snoc; [now apply IH|].
  apply Forall_rev. exact Hx.
Qed.

Lemma sorted_strict (direction : SortOrder) (l : list Order.t) :
  NoDup (map Order.createdAt l) ->
  StronglySorted (inOrder direction) l ->
  StronglySorted (before direction) l.
Proof.
  induction l as [|x xs IH]; intros Hnd Hs; [constructor|].
  simpl in Hnd. inversion Hnd as [|? ? Hnotin Hnd']; subst.
  inversion Hs as [|? ? Hxs Hx]; subst.
  constructor; [now apply IH|].
  rewrite Forall_forall in *. intros y Hy.
  specialize (Hx y Hy).
  assert (Hne : Order.createdAt y <> Order.createdAt x).
  { intros E. apply Hnotin. rewrite <- E. now apply in_map. }
  unfold inOrder, before, compareOrders in *. destruct direction; lia.
Qed.

Lemma sorted_unique (direction : SortOrder) (l1 : list Order.t) :
  forall l2,
    StronglySorted (before direction) l1 ->
    StronglySorted (before direction) l2 ->
    Permutation l1 l2 -> l1 = l2.
Proof.
  induction l1 as [|x xs IH]; intros l2 H1 H2 Hp.
  - apply Permutation_nil in Hp. now subst.
  - destruct l2 as [|y ys].
    { apply Permutation_sym, Permutation_nil in Hp. discriminate Hp. }
    inversion H1 as [|? ? Hxs Hx]; subst.
    inversion H2 as [|? ? Hys Hy]; subst.
    rewrite Forall_forall in Hx, Hy.
    assert (E : x = y).
    { assert (Hxin : In x (y :: ys))
        by (apply (Permutation_in _ Hp); now left).
      assert (Hyin : In y (x :: xs))
        by (apply (Permutation_in _ (Permutation_sym Hp)); now left).
      destruct Hxin as [E|Hxin]; [now symmetry|].
      destruct Hyin as [E|Hyin]; [exact E|].
      specialize (Hx y Hyin). specialize (Hy x Hxin).
      unfold before, compareOrders in *. destruct direction; lia. }
    subst y. f_equal. apply IH; try assumption.
    now apply Permutation_cons_inv in Hp.
Qed.

Lemma sortOrders_toggled (direction : SortOrder)
  (orders orders' : list Order.t) :
  NoDup (map Order.createdAt orders) ->
  Permutation orders orders' ->
  sortOrders (toggled direction) orders' =
  rev (sortOrders direction orders).
Proof.
  intros Hnd Hp.
  assert (Hp1 : Permutation (sortOrders direction orders) orders)
    by apply sortOrders_perm.
  assert (Hp2 : Permutation (sortOrders (toggled direction) orders') orders)
    by (apply perm_trans with orders';
        [apply sortOrders_perm | now apply Permutation_sym]).
  apply (sorted_unique (toggled direction)).
  - apply sorted_strict; [|apply sortOrders_sorted].
    apply Permutation_NoDup with (map Order.createdAt orders);
      [|exact Hnd].
    apply Permutation_map. now apply Permutation_sym.
  - assert (Hs : StronglySorted (before direction)
                   (sortOrders direction orders)).
    { apply sorted_strict; [|apply sortOrders_sorted].
      apply Permutation_NoDup with (map Order.createdAt orders);
        [|exact Hnd].
      apply Permutation_map. now apply Permutation_sym. }
    apply sorted_rev in Hs. revert Hs.
    apply StronglySorted_ind; [constructor|].
    intros a l _ IH Hall. constructor; [exact IH|].
    apply Forall_impl with (P := fun b => before direction b a);
      [|exact Hall].
    intros b. unfold before, compareOrders.
    destruct direction; simpl; lia.
  - apply perm_trans with orders; [exact Hp2|].
    apply perm_trans with (sortOrders direction orders);
      [now apply Permutation_sym | apply Permutation_rev].
Qed.

(** X15.  When no two of the selected orders were created at the same
    instant, reading the list, toggling the sort order and reading the
    list again shows the same orders the other way round. *)
Theorem toggleSortOrder_reverses (c : OrderList.t) :
  NoDup (map Order.createdAt (selectedOrders c)) ->
  snd (filteredOrders (toggleSortOrder (fst (filteredOrders c)))) =
  rev (snd (filteredOrders c)).
Proof.
  intros Hnd. unfold filteredOrders, toggleSortOrder, selectedOrders in *.
  destruct (OrderList.filterStatus c) eqn:Hf; simpl; rewrite ?Hf; simpl.
  - change (match OrderList.sortOrder c with asc => desc | desc => asc end)
      with (toggled (OrderList.sortOrder c)).
    apply sortOrders_toggled; [exact Hnd|].
    apply Permutation_sym, sortOrders_perm.
  - change (match OrderList.sortOrder c with asc => desc | desc => asc end)
      with (toggled (OrderList.sortOrder c)).
    apply sortOrders_toggled; [exact Hnd | apply Permutation_refl].
Qed.

Lemma toggleSortOrder_reverses_witness :
  map Order.id
    (snd (filteredOrders
            (toggleSortOrder
               (fst (filteredOrders
                       (OrderList.mk
                          [ Order.mk "b" "u" [] 0 0 0 0 pending validAddress
                              None None None 2 2;
                            Order.mk "a" "u" [] 0 0 0 0 shipped validAddress
                              None None None 1 1 ]
                          false None None all desc))))))
  = ["a"; "b"].
Proof.
  rewrite (toggleSortOrder_reverses
             (OrderList.mk
                [ Order.mk "b" "u" [] 0 0 0 0 pending validAddress
                    None None None 2 2;
                  Order.mk "a" "u" [] 0 0 0 0 shipped validAddress
                    None None None 1 1 ]
                false None None all desc)).
  - reflexivity.
  - simpl. repeat constructor; simpl; intuition discriminate.
Defined.

(** With two orders created at the same instant the list is not turned
    round: both sort orders keep them as they stood. *)
Example toggleSortOrder_ties :
  map Order.id
    (snd (filteredOrders
            (toggleSortOrder
               (OrderList.mk
                  [ Order.mk "a" "u" [] 0 0 0 0 pending validAddress
                      None None None 1 1;
                    Order.mk "b" "u" [] 0 0 0 0 pending validAddress
                      None None None 1 1 ]
                  false None None all desc))))
  = ["a"; "b"]
  /\ map Order.id
       (snd (filteredOrders
               (OrderList.mk
                  [ Order.mk "a" "u" [] 0 0 0 0 pending validAddress
                      None None None 1 1;
                    Order.mk "b" "u" [] 0 0 0 0 pending validAddress
                      None None None 1 1 ]
                  false None None all desc)))
     = ["a"; "b"].
Proof. split; reflexivity. Qed.

(** ** The component and the service together *)

(** X16.  After [loadOrders] and its answer the component and the service
    hold the same list, and neither is loading.  [cancelOrder] of the
    component on an order of that list then shows the error of the service
    when the order is shipped or delivered, or cancelled or refunded
    already, without touching the list; for the other statuses the request
    goes out, and its answer is put into the component's list as into the
    service's, so that the two lists stay the same. *)
Theorem cancelOrder_after_load (st : ServiceState) (c : OrderList.t)
  (userId : string) (orders : list Order.t) :
  let st1 := getUserOrders_tap (fst (fst (loadOrders st c userId))) orders in
  let c1 := loadOrders_next (snd (fst (loadOrders st c userId))) orders in
  let failed message :=
    OrderList.mk orders false (Some message) (OrderList.selectedOrderId c)
      (OrderList.filterStatus c) (OrderList.sortOrder c) in
  OrderList.orders c1 = ordersSignal st1
  /\ OrderList.isLoading c1 = false
  /\ loadingSignal st1 = false
  /\ OrderList.error c1 = None
  /\ forall orderId o,
       findOrder st1 orderId = Some o ->
       (Order.status o = shipped \/ Order.status o = delivered ->
        componentCancelOrder st1 c1 orderId =
        (st1,
         failed ("Cannot cancel order in " ++ status_name (Order.status o)
                 ++ " status"),
         None))
       /\ (Order.status o = cancelled \/ Order.status o = refunded ->
           componentCancelOrder st1 c1 orderId =
           (st1, failed (transitionMessage (Order.status o) cancelled),
            None))
       /\ (canTransition (Order.status o) cancelled = true ->
           componentCancelOrder st1 c1 orderId =
           (st1, c1,
            Some (PATCH_status (apiUrl ++ "/" ++ orderId ++ "/status")
                    cancelled))
           /\ forall answer,
                OrderList.orders (cancelOrder_next c1 orderId answer) =
                ordersSignal (replaceOrder_tap st1 orderId answer)).
Proof.
  simpl. repeat (split; [reflexivity|]).
  intros orderId o Hfind.
  unfold componentCancelOrder, cancelOrder, updateOrderStatus.
  rewrite Hfind. split; [|split].
  - intros [E|E]; rewrite E; reflexivity.
  - intros [E|E]; rewrite E; reflexivity.
  - intros Hc. split; [|reflexivity].
    destruct (Order.status o); try discriminate Hc; reflexivity.
Qed.

Lemma cancelOrder_after_load_witness :
  OrderList.error
    (snd (fst (componentCancelOrder
                 (getUserOrders_tap
                    (fst (fst (loadOrders emptyState
                                 (OrderList.mk [] false None None all desc)
                                 "user-123")))
                    [existingOrder "order-1" shipped])
                 (loadOrders_next
                    (snd (fst (loadOrders emptyState
                                 (OrderList.mk [] false None None all desc)
                                 "user-123")))
                    [existingOrder "order-1" shipped])
                 "order-1")))
  = Some "Cannot cancel order in shipped status".
Proof.
  destruct (cancelOrder_after_load emptyState
              (OrderList.mk [] false None None all desc) "user-123"
              [existingOrder "order-1" shipped])
    as (_ & _ & _ & _ & H).
  destruct (H "order-1" (existingOrder "order-1" shipped) eq_refl)
    as [Hs _].
  rewrite (Hs (or_introl eq_refl)). reflexivity.
Defined.

(** X17.  The answer to a change of the items of an order and the answer
    to a change of its status or its other data update the list in the
    same way, but only the latter refreshes the current order: after
    [addItemToOrder] or [removeItemFromOrder] on the current order, the
    current order is still the copy from before the change. *)
Theorem itemChange_leaves_current_stale (st : ServiceState)
  (orderId : string) (current answer : Order.t) :
  currentOrderSignal st = Some current ->
  Order.id current = orderId ->
  ordersSignal (itemChange_tap st orderId answer) =
  ordersSignal (replaceOrder_tap st orderId answer)
  /\ currentOrderSignal (replaceOrder_tap st orderId answer) = Some answer
  /\ currentOrderSignal (itemChange_tap st orderId answer) = Some current.
Proof.
  intros Hcur Hid. unfold itemChange_tap, replaceOrder_tap. simpl.
  rewrite Hcur, Hid, String.eqb_refl. repeat split.
Qed.

Lemma itemChange_leaves_current_stale_witness :
  currentOrderSignal
    (itemChange_tap
       (mkState [existingOrder "order-1" draft]
          (Some (existingOrder "order-1" draft)) false None)
       "order-1" (existingOrder "order-1" pending))
  = Some (existingOrder "order-1" draft).
Proof.
  apply (itemChange_leaves_current_stale
           (mkState [existingOrder "order-1" draft]
              (Some (existingOrder "order-1" draft)) false None)
           "order-1" (existingOrder "order-1" draft)
           (existingOrder "order-1" pending) eq_refl eq_refl).
Defined.

(** X18.  The filter offers 'all' and every status except [refunded]:
    refunded orders can be counted and are shown under 'all', but no
    option of the filter selects them alone. *)
Theorem statusOptions_without_refunded (s : OrderStatus) :
  In all statusOptions
  /\ (In (only s) statusOptions <-> s <> refunded).
Proof.
  split; [now left|].
  destruct s; simpl; split; intros H;
    try discriminate; try (intuition congruence); intuition discriminate.
Qed.

(** ** What reading the list does to the other computed values *)



